(** * Gumshoe: sampling-and-classification pipeline of [gumshoe.py]

    A shallow embedding of [GumshoeInspector] (src/gumshoe.py) and the
    properties of its specification.

    Conventions of the embedding:
    - Python [str] holding object content is a list of Unicode code points
      ([text]); bucket names, object keys and PII type names are [string]s;
      [bytes] is a list of [byte].
    - Python [int] is [Z]; lengths and indices of the list machinery are [nat].
    - A method of the class takes [self] first.  Side effects (printing,
      calls to the AWS clients, draws from the [random] module) are threaded
      through a state-and-exception monad [M]: the state records what was
      printed and which remote calls were made, in order, and holds the
      stream of raw random draws still to be consumed. *)

From Stdlib Require Import ZArith NArith Strings.Byte Floats.PrimFloat.
From stdpp Require Import base tactics option list strings gmap sorting.

Local Open Scope Z_scope.

#[local] Set Warnings "-inexact-float,-clear-no-such-hyp".

(** ** Python values *)

(** A code point of a Python [str]. *)
Definition codepoint := N.

(** Decoded object content. *)
Definition text := list codepoint.

Definition bytes := list Byte.byte.

(** Exceptions the modelled code can meet. *)
Inductive exn :=
| UnicodeDecodeError
| ValueError
| UnicodeEncodeError
| IndexError
| ClientError (code : string).

Inductive result (A : Type) :=
| Ok (a : A)
| Raise (e : exn).
Arguments Ok {A} a.
Arguments Raise {A} e.

(** ** AWS responses and clients *)

(** An entry of [response["Contents"]]; only ["Key"] is read. *)
Record s3_object := { Key : string }.

(** The dictionary returned by [list_objects_v2]: the key ['Contents'] may be
    absent. *)
Record list_objects_response := { Contents : option (list s3_object) }.

(** An entry of [comprehend_response["Labels"]]. *)
Record label := { Name : string; Score : float }.

(** The dictionary returned by [contains_pii_entities]: the key ['Labels'] may
    be absent. *)
Record contains_pii_response := { Labels : option (list label) }.

(** [self.s3]: [get_object] stands for [get_object(...)['Body'].read()]. *)
Record S3Client := {
  list_objects_v2 : string -> result list_objects_response;
  get_object : string -> string -> result bytes
}.

(** [self.comprehend], called with [LanguageCode="en"]. *)
Record ComprehendClient := {
  contains_pii_entities : text -> result contains_pii_response
}.

Record GumshoeInspector := {
  s3 : S3Client;
  comprehend : ComprehendClient;
  sample_size : Z;
  display_lines : Z
}.

(** ** Output and effects *)

(** The lines [print] writes, one constructor per format string of the
    source. *)
Inductive line :=
| InspectingBucket (bucket : string)
    (* f"Inspecting bucket: {bucket_name}" *)
| BucketEmpty (bucket : string)
    (* f"The bucket '{bucket}' is empty or you don't have permission ..." *)
| Checking (bucket key : string)
    (* f"Checking {bucket_name}/{object_name}" *)
| EmptyContent (bucket key : string)
    (* f"Empty content in {bucket_name}/{object_name}" *)
| PiiFound (bucket key : string)
    (* f"PII entities found in {bucket_name}/{object_name}:" *)
| PiiType (name : string) (score : float)
    (* f"  - Type: {name}, Score: {score}" *)
| FirstLines (n : Z) (bucket key : string)
    (* f"First {self.display_lines} lines of {bucket_name}/{object_name}:" *)
| Numbered (i : nat) (content : text)
    (* f"{i}: {line}" *)
| Ellipsis
    (* "..." *)
| Blank
    (* print() *)
| NoPiiFound (bucket key : string).
    (* f"No PII entities found in {bucket_name}/{object_name}" *)

Inductive event :=
| Print (l : line)
| ListObjectsV2 (bucket : string)
| GetObject (bucket key : string)
| ContainsPiiEntities (txt : text).

Record world := {
  trace : list event;   (* what happened so far, oldest first *)
  rng : list nat        (* raw draws of the random module still to come *)
}.

Definition M (A : Type) : Type := world -> result A * world.

#[global] Instance M_ret : MRet M := fun A a w => (Ok a, w).

#[global] Instance M_bind : MBind M := fun A B f m w =>
  match m w with
  | (Ok a, w') => f a w'
  | (Raise e, w') => (Raise e, w')
  end.

Definition emit (e : event) : M unit :=
  fun w => (Ok tt, {| trace := trace w ++ [e]; rng := rng w |}).

Definition print (l : line) : M unit := emit (Print l).

(** The outcome of a remote call enters the computation. *)
Definition lift {A} (r : result A) : M A := fun w => (r, w).

Definition raise {A} (e : exn) : M A := lift (Raise e).

(** ** The [random] module *)

(** [random._randbelow(n)]: the next raw draw reduced below [n]. *)
Definition randbelow (n : nat) : M nat :=
  fun w => (Ok (hd 0%nat (rng w) `mod` n)%nat,
            {| trace := trace w; rng := tl (rng w) |}).

(** The loop of [random.sample] over a copy [pool] of the population:
<<
    for i in range(k):
        j = randbelow(n - i)
        result[i] = pool[j]
        pool[j] = pool[n - i - 1]
>>
    [m] is [n - i] and [todo] is [k - i]; an index out of range raises.
    (For a population much larger than [k] the library picks the [k]
    positions by drawing until a fresh one comes instead; both ways select
    [k] distinct positions, and this loop stands for both.) *)
Fixpoint sample_loop {A} (pool : list A) (m todo : nat) : M (list A) :=
  match todo with
  | O => mret []
  | S todo' =>
      j ← randbelow m;
      match pool !! j, pool !! (m - 1)%nat with
      | Some x, Some y =>
          rest ← sample_loop (<[j := y]> pool) (m - 1)%nat todo';
          mret (x :: rest)
      | _, _ => raise IndexError
      end
  end.

(** [random.sample(population, k)]. *)
Definition random_sample {A} (population : list A) (k : Z) : M (list A) :=
  let n := length population in
  if bool_decide (0 <= k <= Z.of_nat n) then
    sample_loop population n (Z.to_nat k)
  else raise ValueError.

(** ** [GumshoeInspector.sample_s3_bucket_contents] *)

Definition sample_s3_bucket_contents (self : GumshoeInspector) (bucket : string)
  : M (list string) :=
  _ ← emit (ListObjectsV2 bucket);
  response ← lift (list_objects_v2 (s3 self) bucket);
  match Contents response with
  | Some contents =>
      let all_objects := Key <$> contents in
      random_sample all_objects (Z.min 10 (Z.of_nat (length all_objects)))
  | None =>
      _ ← print (BucketEmpty bucket);
      mret []
  end.

(** ** UTF-8, as the built-in codec does it *)

(** [bytes.decode('utf-8', errors=...)]: the two handlers the source uses. *)
Inductive error_handler := Strict | Ignore.

(** What the codec does at an undecodable position: [strict] raises,
    [ignore] goes on with [resume], the input after the offending bytes. *)
Definition on_error (h : error_handler) (resume : result text) : result text :=
  match h with
  | Strict => Raise UnicodeDecodeError
  | Ignore => resume
  end.

Definition result_map {A B} (f : A -> B) (r : result A) : result B :=
  match r with
  | Ok a => Ok (f a)
  | Raise e => Raise e
  end.

Definition is_continuation (ch : N) : bool :=
  ((0x80 <=? ch) && (ch <? 0xC0))%N.

(** The decoder reads a lead byte and up to three continuation bytes.  An
    invalid start byte is an error of one byte; an invalid continuation byte
    is an error of the bytes before it (one, two or three); input that ends
    inside a sequence is an error up to the end of the input.  Overlong
    forms, surrogates and code points above U+10FFFF are refused at the
    second byte. *)
Fixpoint utf8_decode (h : error_handler) (s : bytes) : result text :=
  match s with
  | [] => Ok []
  | c :: s1 =>
    let ch := Byte.to_N c in
    if (ch <? 0x80)%N then result_map (cons ch) (utf8_decode h s1)
    else if (ch <? 0xC2)%N then on_error h (utf8_decode h s1)
    else if (ch <? 0xE0)%N then
      match s1 with
      | [] => on_error h (Ok [])
      | c2 :: s2 =>
        let ch2 := Byte.to_N c2 in
        if is_continuation ch2 then
          result_map
            (cons (N.shiftl ch 6 + ch2 - (N.shiftl 0xC0 6 + 0x80))%N)
            (utf8_decode h s2)
        else on_error h (utf8_decode h s1)
      end
    else if (ch <? 0xF0)%N then
      match s1 with
      | [] => on_error h (Ok [])
      | c2 :: s2 =>
        let ch2 := Byte.to_N c2 in
        if negb (is_continuation ch2)
           || (if (ch2 <? 0xA0)%N then (ch =? 0xE0)%N else (ch =? 0xED)%N)
        then on_error h (utf8_decode h s1)
        else
          match s2 with
          | [] => on_error h (Ok [])
          | c3 :: s3 =>
            let ch3 := Byte.to_N c3 in
            if is_continuation ch3 then
              result_map
                (cons (N.shiftl ch 12 + N.shiftl ch2 6 + ch3
                       - (N.shiftl 0xE0 12 + N.shiftl 0x80 6 + 0x80))%N)
                (utf8_decode h s3)
            else on_error h (utf8_decode h s2)
          end
      end
    else if (ch <? 0xF5)%N then
      match s1 with
      | [] => on_error h (Ok [])
      | c2 :: s2 =>
        let ch2 := Byte.to_N c2 in
        if negb (is_continuation ch2)
           || (if (ch2 <? 0x90)%N then (ch =? 0xF0)%N else (ch =? 0xF4)%N)
        then on_error h (utf8_decode h s1)
        else
          match s2 with
          | [] => on_error h (Ok [])
          | c3 :: s3 =>
            let ch3 := Byte.to_N c3 in
            if is_continuation ch3 then
              match s3 with
              | [] => on_error h (Ok [])
              | c4 :: s4 =>
                let ch4 := Byte.to_N c4 in
                if is_continuation ch4 then
                  result_map
                    (cons (N.shiftl ch 18 + N.shiftl ch2 12
                           + N.shiftl ch3 6 + ch4
                           - (N.shiftl 0xF0 18 + N.shiftl 0x80 12
                              + N.shiftl 0x80 6 + 0x80))%N)
                    (utf8_decode h s4)
                else on_error h (utf8_decode h s3)
              end
            else on_error h (utf8_decode h s2)
          end
      end
    else on_error h (utf8_decode h s1)
  end.

(** The byte with value [n]; [n] is below 256 wherever this is used. *)
Definition byte_of_N (n : N) : Byte.byte :=
  match Byte.of_N n with
  | Some b => b
  | None => Byte.x00
  end.

(** [str.encode('utf-8')] of one code point.  A surrogate cannot be encoded,
    and a [str] holds no code point above U+10FFFF. *)
Definition utf8_encode_char (ch : codepoint) : result bytes :=
  if (ch <? 0x80)%N then Ok [byte_of_N ch]
  else if (ch <? 0x800)%N then
    Ok [byte_of_N (N.lor 0xC0 (N.shiftr ch 6));
        byte_of_N (N.lor 0x80 (N.land ch 0x3F))]
  else if (ch <? 0x10000)%N then
    if ((0xD800 <=? ch) && (ch <=? 0xDFFF))%N then Raise UnicodeEncodeError
    else
      Ok [byte_of_N (N.lor 0xE0 (N.shiftr ch 12));
          byte_of_N (N.lor 0x80 (N.land (N.shiftr ch 6) 0x3F));
          byte_of_N (N.lor 0x80 (N.land ch 0x3F))]
  else if (ch <=? 0x10FFFF)%N then
    Ok [byte_of_N (N.lor 0xF0 (N.shiftr ch 18));
        byte_of_N (N.lor 0x80 (N.land (N.shiftr ch 12) 0x3F));
        byte_of_N (N.lor 0x80 (N.land (N.shiftr ch 6) 0x3F));
        byte_of_N (N.lor 0x80 (N.land ch 0x3F))]
  else Raise ValueError.

Fixpoint utf8_encode (t : text) : result bytes :=
  match t with
  | [] => Ok []
  | ch :: t' =>
      match utf8_encode_char ch, utf8_encode t' with
      | Ok b, Ok bs => Ok (b ++ bs)
      | Raise e, _ => Raise e
      | _, Raise e => Raise e
      end
  end.

(** Valid UTF-8: the encoding of some sequence of code points. *)
Definition valid_utf8 (content : bytes) : Prop :=
  exists t, utf8_encode t = Ok content.

(** ** Slices and lines *)

(** [l[:n]]: a negative [n] counts from the end. *)
Definition slice_to {A} (n : Z) (l : list A) : list A :=
  if 0 <=? n then take (Z.to_nat n) l
  else take (length l - Z.to_nat (- n)) l.

(** The line boundaries of [str.splitlines]. *)
Definition is_linebreak (ch : codepoint) : bool :=
  existsb (N.eqb ch)
    [0x0A; 0x0B; 0x0C; 0x0D; 0x1C; 0x1D; 0x1E; 0x85; 0x2028; 0x2029]%N.

(** [str.splitlines()]: the lines without their boundaries; CR LF is one
    boundary, and a final boundary opens no further line. *)
Fixpoint splitlines (s : text) : list text :=
  match s with
  | [] => []
  | ch :: s1 =>
      if is_linebreak ch then
        match s1 with
        | ch2 :: s2 =>
            if ((ch =? 0x0D) && (ch2 =? 0x0A))%N then [] :: splitlines s2
            else [] :: splitlines s1
        | [] => [ [] ]
        end
      else
        match splitlines s1 with
        | [] => [ [ch] ]
        | l :: ls => (ch :: l) :: ls
        end
  end.

(** ** [GumshoeInspector.read_s3_object_content] *)

(** The [try]/[except UnicodeDecodeError] of lines 57 to 62. *)
Definition decode_content (content : bytes) : result text :=
  match utf8_decode Strict content with
  | Ok content_str => Ok content_str
  | Raise UnicodeDecodeError => utf8_decode Ignore content
  | Raise e => Raise e
  end.

Definition read_s3_object_content (self : GumshoeInspector)
  (bucket key : string) : M text :=
  _ ← emit (GetObject bucket key);
  content ← lift (get_object (s3 self) bucket key);
  lift (decode_content content).

(** ** [GumshoeInspector.check_for_pii_using_aws_comprehend] *)

(** "The actual limit is 100000 _bytes_, not characters" (line 73). *)
Definition COMPREHEND_MAX_BYTES : Z := 100000.

Definition check_for_pii_using_aws_comprehend (self : GumshoeInspector)
  (bucket_name object_name : string) (content_str : text)
  : M (option contains_pii_response) :=
  match content_str with
  | [] =>
      _ ← print (EmptyContent bucket_name object_name);
      mret None
  | _ =>
      let content_sample := slice_to 90000 content_str in
      _ ← emit (ContainsPiiEntities content_sample);
      response ← lift (contains_pii_entities (comprehend self) content_sample);
      mret (Some response)
  end.

(** ** [GumshoeInspector.process_pii_entities] *)

Definition IGNORE_TYPES : list string :=
  ["DATE_TIME"; "DATE"; "TIME"; "IP_ADDRESS"; "MAC_ADDRESS"; "URL"]%string.

(** [x in l] on a Python list. *)
Fixpoint py_in (x : string) (l : list string) : bool :=
  match l with
  | [] => false
  | y :: l' => if String.eqb y x then true else py_in x l'
  end.

(** [[l for l in labels if l["Name"] not in ignore]]. *)
Fixpoint labels_not_in (ignore : list string) (labels : list label)
  : list label :=
  match labels with
  | [] => []
  | l :: labels' =>
      if negb (py_in (Name l) ignore) then l :: labels_not_in ignore labels'
      else labels_not_in ignore labels'
  end.

Definition process_pii_entities (comprehend_response : contains_pii_response)
  (object_name : string) : option (list label) :=
  match Labels comprehend_response with
  | Some labels => Some (labels_not_in IGNORE_TYPES labels)
  | None => None
  end.

(** The ignore-set of the specification. *)
Definition ignore_set : gset string :=
  {[ "DATE_TIME"; "DATE"; "TIME"; "IP_ADDRESS"; "MAC_ADDRESS"; "URL" ]}%string.

(** ** [GumshoeInspector.inspect_bucket] *)

(** [for label in labels: print(f"  - Type: {name}, Score: {score}")]. *)
Fixpoint print_labels (labels : list label) : M unit :=
  match labels with
  | [] => mret tt
  | l :: labels' =>
      _ ← print (PiiType (Name l) (Score l));
      print_labels labels'
  end.

(** [for i, line in enumerate(lines, i): print(f"{i}: {line}")]. *)
Fixpoint print_numbered (i : nat) (lines : list text) : M unit :=
  match lines with
  | [] => mret tt
  | l :: lines' =>
      _ ← print (Numbered i l);
      print_numbered (S i) lines'
  end.

(** The preview of lines 111 to 118. *)
Definition print_preview (self : GumshoeInspector)
  (bucket_name object_name : string) (content_str : text) : M unit :=
  if 0 <? display_lines self then
    _ ← print (FirstLines (display_lines self) bucket_name object_name);
    let content_lines := splitlines content_str in
    _ ← print_numbered 1 (slice_to 10 content_lines);
    if 10 <? Z.of_nat (length content_lines) then print Ellipsis
    else mret tt
  else mret tt.

(** The body of the [for object_name in sample] loop. *)
Definition inspect_object (self : GumshoeInspector)
  (bucket_name object_name : string) : M unit :=
  _ ← print (Checking bucket_name object_name);
  content_str ← read_s3_object_content self bucket_name object_name;
  comprehend_response ←
    check_for_pii_using_aws_comprehend self bucket_name object_name content_str;
  match comprehend_response with
  | None => mret tt
  | Some response =>
      match process_pii_entities response object_name with
      | Some ((_ :: _) as labels) =>
          _ ← print (PiiFound bucket_name object_name);
          _ ← print_labels labels;
          _ ← print_preview self bucket_name object_name content_str;
          print Blank
      | _ => print (NoPiiFound bucket_name object_name)
      end
  end.

Fixpoint inspect_objects (self : GumshoeInspector) (bucket_name : string)
  (sample : list string) : M unit :=
  match sample with
  | [] => mret tt
  | object_name :: sample' =>
      _ ← inspect_object self bucket_name object_name;
      inspect_objects self bucket_name sample'
  end.

Definition inspect_bucket (self : GumshoeInspector) (bucket_name : string)
  : M unit :=
  _ ← print (InspectingBucket bucket_name);
  sample ← sample_s3_bucket_contents self bucket_name;
  inspect_objects self bucket_name sample.

(** ** Observations and example inputs *)

(** The value and the events a computation adds when run from [w]. *)
Definition run {A} (m : M A) (w : world) : result A := fst (m w).
Definition events {A} (m : M A) (w : world) : list event := trace (snd (m w)).

(** The keys of a listing response; no ['Contents'] means no keys. *)
Definition listing_keys (response : list_objects_response) : list string :=
  match Contents response with
  | Some contents => Key <$> contents
  | None => []
  end.

(** A bucket of five objects, all of them empty. *)
Definition five_keys_s3 : S3Client := {|
  list_objects_v2 _ :=
    Ok {| Contents := Some [ {| Key := "a" |}; {| Key := "b" |};
                             {| Key := "c" |}; {| Key := "d" |};
                             {| Key := "e" |} ] |};
  get_object _ _ := Ok []
|}.

(** A classifier that finds nothing. *)
Definition silent_comprehend : ComprehendClient := {|
  contains_pii_entities _ := Ok {| Labels := Some [] |}
|}.

(** An inspector configured with [--sample-size 3] over that bucket. *)
Definition sample_size_3 : GumshoeInspector := {|
  s3 := five_keys_s3;
  comprehend := silent_comprehend;
  sample_size := 3;
  display_lines := 10
|}.

(** A bucket whose listing has no ['Contents']. *)
Definition empty_bucket_s3 : S3Client := {|
  list_objects_v2 _ := Ok {| Contents := None |};
  get_object _ _ := Raise (ClientError "NoSuchKey")
|}.

(** An inspector over that bucket. *)
Definition empty_bucket_inspector : GumshoeInspector := {|
  s3 := empty_bucket_s3;
  comprehend := silent_comprehend;
  sample_size := 10;
  display_lines := 10
|}.

(** A bucket of one object with the given content. *)
Definition one_object_s3 (content : bytes) : S3Client := {|
  list_objects_v2 _ := Ok {| Contents := Some [ {| Key := "people.csv" |} ] |};
  get_object _ _ := Ok content
|}.

(** A classifier with one answer. *)
Definition fixed_comprehend (response : contains_pii_response)
  : ComprehendClient := {|
  contains_pii_entities _ := Ok response
|}.

(** An inspector whose classifier answers without ['Labels']. *)
Definition no_labels_inspector : GumshoeInspector := {|
  s3 := one_object_s3 ["A"%byte];
  comprehend := fixed_comprehend {| Labels := None |};
  sample_size := 10;
  display_lines := 10
|}.

(** The contents of the numbered preview lines among some events. *)
Fixpoint numbered_lines (evs : list event) : list text :=
  match evs with
  | [] => []
  | Print (Numbered _ content) :: evs' => content :: numbered_lines evs'
  | _ :: evs' => numbered_lines evs'
  end.

(** Five lines, ["1\n2\n3\n4\n5"]. *)
Definition five_lines : bytes :=
  ["1"; "010"; "2"; "010"; "3"; "010"; "4"; "010"; "5"]%byte.

(** An inspector configured with [--display-lines 3] over an object of five
    lines in which the classifier finds an e-mail address. *)
Definition display_lines_3 : GumshoeInspector := {|
  s3 := one_object_s3 five_lines;
  comprehend :=
    fixed_comprehend
      {| Labels := Some [ {| Name := "EMAIL"; Score := 0.95%float |} ] |};
  sample_size := 10;
  display_lines := 3
|}.

(** ** [GumshoeInspector.get_s3_buckets] *)

(** An entry of [list_buckets()["Buckets"]]; only ["Name"] is read. *)
Module Bucket.
Record t := { Name : string }.
End Bucket.

(** The dictionary returned by [list_buckets]. *)
Record list_buckets_response := { Buckets : list Bucket.t }.

(** The order of [str]: by the first position that differs. *)
Definition str_le (s1 s2 : string) : Prop := String.leb s1 s2 = true.

#[global] Instance str_le_dec s1 s2 : Decision (str_le s1 s2).
Proof. unfold str_le. apply _. Defined.

(** [sorted(l)] on a list of [str]. *)
Definition sorted (l : list string) : list string := merge_sort str_le l.

(** The method, as a function of the outcome of [self.s3.list_buckets()]:
    [sorted([bucket["Name"] for bucket in ...["Buckets"]])]. *)
Definition get_s3_buckets (list_buckets : result list_buckets_response)
  : result (list string) :=
  match list_buckets with
  | Ok response => Ok (sorted (Bucket.Name <$> Buckets response))
  | Raise e => Raise e
  end.

(** ** Counting remote calls *)

(** Listing and classification calls. *)
Definition is_listing (e : event) : bool :=
  match e with ListObjectsV2 _ => true | _ => false end.

Definition is_classification (e : event) : bool :=
  match e with ContainsPiiEntities _ => true | _ => false end.

(** How many of the events satisfy [p]. *)
Fixpoint count_events (p : event -> bool) (evs : list event) : nat :=
  match evs with
  | [] => 0
  | e :: evs' => ((if p e then 1 else 0) + count_events p evs')%nat
  end.

(** ** What a report is made of *)

(** The numbered lines of a preview, counting from [i]. *)
Definition numbered_from (i : nat) (lines : list text) : list event :=
  imap (fun j l => Print (Numbered (i + j) l)) lines.

(** The lines about the labels found. *)
Definition label_events (labels : list label) : list event :=
  (fun l => Print (PiiType (Name l) (Score l))) <$> labels.

(** A bucket that cannot be listed. *)
Definition denied_s3 : S3Client := {|
  list_objects_v2 _ := Raise (ClientError "AccessDenied");
  get_object _ _ := Raise (ClientError "AccessDenied")
|}.

(** An inspector over that bucket. *)
Definition denied_inspector : GumshoeInspector := {|
  s3 := denied_s3;
  comprehend := silent_comprehend;
  sample_size := 10;
  display_lines := 10
|}.

(** A classifier that is throttled. *)
Definition throttled_comprehend : ComprehendClient := {|
  contains_pii_entities _ := Raise (ClientError "ThrottlingException")
|}.

(** An inspector with that classifier. *)
Definition throttled_inspector : GumshoeInspector := {|
  s3 := one_object_s3 ["A"%byte];
  comprehend := throttled_comprehend;
  sample_size := 10;
  display_lines := 10
|}.

(** The keys of the objects fetched, in the order of the fetches. *)
Definition fetched_keys (evs : list event) : list string :=
  omap (fun e => match e with GetObject _ key => Some key | _ => None end) evs.

(** A remote call that answers. *)
Definition succeeds {A} (r : result A) : Prop := exists a, r = Ok a.

(** What the preview prints, whatever [display_lines] is. *)
Definition preview_events (self : GumshoeInspector)
  (bucket_name object_name : string) (content_str : text) : list event :=
  if 0 <? display_lines self then
    Print (FirstLines (display_lines self) bucket_name object_name)
    :: numbered_from 1 (take 10 (splitlines content_str))
    ++ (if 10 <? Z.of_nat (length (splitlines content_str))
        then [Print Ellipsis] else [])
  else [].

(** An inspector whose classifier finds a date and a URL only. *)
Definition dates_only_inspector : GumshoeInspector := {|
  s3 := one_object_s3 ["A"%byte];
  comprehend :=
    fixed_comprehend
      {| Labels := Some [ {| Name := "DATE_TIME"; Score := 0.5%float |};
                          {| Name := "URL"; Score := 0.25%float |} ] |};
  sample_size := 10;
  display_lines := 10
|}.

(** * Properties *)

(** ** Running computations *)

Lemma bind_Ok {A B} (m : M A) (f : A -> M B) w a w' :
  m w = (Ok a, w') -> (m ≫= f) w = f a w'.
Proof. intros H. unfold mbind, M_bind. by rewrite H. Qed.

Lemma bind_Raise {A B} (m : M A) (f : A -> M B) w e w' :
  m w = (Raise e, w') -> (m ≫= f) w = (Raise e, w').
Proof. intros H. unfold mbind, M_bind. by rewrite H. Qed.

(** ** [random.sample] *)

Section sample.
Context {A : Type}.
Implicit Types (pool res : list A) (w : world).

(** One step of the loop keeps the non-selected items in the prefix. *)
Lemma take_select pool m j x y :
  (j < m)%nat -> pool !! j = Some x -> pool !! (m - 1)%nat = Some y ->
  take m pool ≡ₚ x :: take (m - 1) (<[j := y]> pool).
Proof.
  intros Hj Hx Hy.
  destruct m as [|m]; [lia|]. replace (S m - 1)%nat with m in * by lia.
  rewrite (take_S_r _ _ _ Hy).
  destruct (decide (j = m)) as [->|Hne].
  - assert (x = y) as -> by congruence.
    rewrite list_insert_id by done. by rewrite Permutation_app_comm.
  - assert (j < m)%nat as Hlt by lia.
    rewrite take_insert_lt by done.
    assert (take m pool !! j = Some x) as Ht by by rewrite lookup_take_lt.
    rewrite insert_take_drop by (apply lookup_lt_is_Some; eauto).
    rewrite <- (take_drop_middle _ _ _ Ht) at 1.
    rewrite <- app_assoc. simpl.
    rewrite <- !Permutation_middle. by rewrite app_nil_r.
Qed.

(** The loop never raises; it consumes draws only, and what it selects
    together with what it leaves is the pool it started from. *)
Lemma sample_loop_spec todo : forall pool m w,
  (todo <= m <= length pool)%nat ->
  exists res left,
    sample_loop pool m todo w
      = (Ok res, {| trace := trace w; rng := drop todo (rng w) |})
    /\ length res = todo
    /\ res ++ left ≡ₚ take m pool.
Proof.
  induction todo as [|todo IH]; intros pool m w Hm.
  - exists [], (take m pool). simpl. unfold mret, M_ret.
    rewrite drop_0. by destruct w.
  - set (j := (hd 0%nat (rng w) `mod` m)%nat).
    assert (j < m)%nat as Hj by (apply Nat.mod_upper_bound; lia).
    destruct (lookup_lt_is_Some_2 pool j) as [x Hx]; [lia|].
    destruct (lookup_lt_is_Some_2 pool (m - 1)) as [y Hy]; [lia|].
    destruct (IH (<[j := y]> pool) (m - 1)%nat
                 {| trace := trace w; rng := tl (rng w) |})
      as (res & left & Hrun & Hlen & Hperm).
    { rewrite length_insert. lia. }
    exists (x :: res), left. split_and!.
    + cbn [sample_loop]. erewrite bind_Ok by reflexivity.
      fold j. rewrite Hx, Hy. erewrite bind_Ok by exact Hrun.
      unfold mret, M_ret. simpl. destruct (rng w); simpl; by rewrite ?drop_nil.
    + simpl. by rewrite Hlen.
    + simpl. rewrite Hperm. symmetry. by apply take_select.
Qed.

Lemma random_sample_spec (population : list A) (k : Z) w :
  0 <= k <= Z.of_nat (length population) ->
  exists res left,
    random_sample population k w
      = (Ok res, {| trace := trace w; rng := drop (Z.to_nat k) (rng w) |})
    /\ Z.of_nat (length res) = k
    /\ res ++ left ≡ₚ population.
Proof.
  intros Hk. unfold random_sample. rewrite bool_decide_eq_true_2 by done.
  destruct (sample_loop_spec (Z.to_nat k) population (length population) w)
    as (res & left & Hrun & Hlen & Hperm); [lia|].
  exists res, left. split_and!; [done|lia|].
  by rewrite Hperm, firstn_all.
Qed.

End sample.

(** ** [sample_s3_bucket_contents] *)

(** With a listing that has ['Contents'], the method returns
    [min(10, len(all_objects))] of the keys, whatever [self.sample_size] is. *)
Lemma sample_s3_bucket_contents_listed self bucket contents w :
  list_objects_v2 (s3 self) bucket = Ok {| Contents := Some contents |} ->
  exists res left,
    sample_s3_bucket_contents self bucket w
      = (Ok res, {| trace := trace w ++ [ListObjectsV2 bucket];
                    rng := drop (Nat.min 10 (length contents)) (rng w) |})
    /\ length res = Nat.min 10 (length contents)
    /\ res ++ left ≡ₚ Key <$> contents.
Proof.
  intros Hlist. unfold sample_s3_bucket_contents.
  set (w1 := {| trace := trace w ++ [ListObjectsV2 bucket]; rng := rng w |}).
  set (all_objects := Key <$> contents).
  set (k := Z.min 10 (Z.of_nat (length all_objects))).
  assert (length all_objects = length contents) as Hlen
    by apply length_fmap.
  destruct (random_sample_spec all_objects k w1)
    as (res & left & Hrun & Hres & Hperm); [lia|].
  exists res, left. split_and!; [|lia|done].
  erewrite bind_Ok by reflexivity. fold w1.
  erewrite bind_Ok by (unfold lift; rewrite Hlist; reflexivity).
  cbn [Contents]. fold all_objects k. rewrite Hrun.
  by replace (Nat.min 10 (length contents)) with (Z.to_nat k) by lia.
Qed.

(** With a listing that has no ['Contents'], the method prints its message
    and returns the empty list, drawing nothing. *)
Lemma sample_s3_bucket_contents_unlisted self bucket w :
  list_objects_v2 (s3 self) bucket = Ok {| Contents := None |} ->
  sample_s3_bucket_contents self bucket w
    = (Ok [], {| trace := trace w ++ [ListObjectsV2 bucket;
                                      Print (BucketEmpty bucket)];
                 rng := rng w |}).
Proof.
  intros Hlist. unfold sample_s3_bucket_contents.
  erewrite bind_Ok by reflexivity.
  erewrite bind_Ok by (unfold lift; rewrite Hlist; reflexivity).
  cbn -[app]. unfold mbind, M_bind, print, emit, mret, M_ret. cbn -[app].
  by rewrite <- app_assoc.
Qed.

(** C1 (fails on the code): the sample has [min(n, len(K))] keys for the
    configured sample size [n].  With [sample_size = 3] and five keys in the
    listing the method returns five keys, not three: the bound in the code is
    the literal 10. *)
Theorem sample_size_not_honoured w :
  exists res,
    run (sample_s3_bucket_contents sample_size_3 "logs-bucket") w = Ok res
    /\ length res = 5%nat
    /\ Z.of_nat (length res) <> Z.min (sample_size sample_size_3) 5.
Proof.
  destruct (sample_s3_bucket_contents_listed sample_size_3 "logs-bucket"
              _ w eq_refl) as (res & left & Hrun & Hlen & _).
  exists res. unfold run. rewrite Hrun. simpl in *. split_and!; [done|done|].
  rewrite Hlen. done.
Qed.

(** C9: the sample is drawn without replacement.  Every sampled key is a key
    of the listing, no entry of the listing is drawn more often than it
    occurs there, and over a listing of distinct keys (keys are unique within
    a bucket listing) the sample has no duplicate entries.  This holds for
    every configured sample size. *)
Theorem sample_without_replacement self bucket response w :
  list_objects_v2 (s3 self) bucket = Ok response ->
  NoDup (listing_keys response) ->
  exists res,
    run (sample_s3_bucket_contents self bucket) w = Ok res
    /\ (forall key, key ∈ res -> key ∈ listing_keys response)
    /\ (exists left, res ++ left ≡ₚ listing_keys response)
    /\ NoDup res.
Proof.
  intros Hlist Hnodup. destruct response as [[contents|]].
  - destruct (sample_s3_bucket_contents_listed self bucket contents w Hlist)
      as (res & left & Hrun & _ & Hperm).
    exists res. unfold run, listing_keys in *. rewrite Hrun. cbn [Contents] in *.
    split_and!; [done| |by exists left|].
    + intros key Hkey. rewrite <- Hperm. apply elem_of_app. by left.
    + rewrite <- Hperm in Hnodup. by apply NoDup_app in Hnodup as [? _].
  - exists []. unfold run.
    rewrite (sample_s3_bucket_contents_unlisted self bucket w Hlist).
    split_and!; [done| |by exists []|constructor].
    intros key Hkey. by apply elem_of_nil in Hkey.
Qed.

Lemma sample_without_replacement_witness :
  exists res,
    run (sample_s3_bucket_contents sample_size_3 "logs-bucket")
        {| trace := []; rng := [7; 3; 9; 1; 0]%nat |} = Ok res
    /\ (forall key, key ∈ res -> key ∈ ["a"; "b"; "c"; "d"; "e"]%string)
    /\ (exists left, res ++ left ≡ₚ ["a"; "b"; "c"; "d"; "e"]%string)
    /\ NoDup res.
Proof.
  apply (sample_without_replacement sample_size_3 "logs-bucket"
           {| Contents := Some [ {| Key := "a" |}; {| Key := "b" |};
                                 {| Key := "c" |}; {| Key := "d" |};
                                 {| Key := "e" |} ] |}).
  - reflexivity.
  - apply (bool_decide_unpack _). vm_compute. exact I.
Defined.

(** ** [process_pii_entities] *)

Lemma py_in_spec x l : py_in x l = true <-> x ∈ l.
Proof.
  induction l as [|y l IH]; simpl.
  - split; [done|]. intros H. by apply elem_of_nil in H.
  - rewrite elem_of_cons. destruct (String.eqb_spec y x) as [->|Hne].
    + naive_solver.
    + rewrite IH. naive_solver.
Qed.

Lemma py_in_false x l : py_in x l = false <-> x ∉ l.
Proof.
  rewrite <- py_in_spec. destruct (py_in x l); naive_solver.
Qed.

(** The comprehension is the filter by "name not in the ignore list". *)
Lemma labels_not_in_filter ignore labels :
  labels_not_in ignore labels = filter (fun l => Name l ∉ ignore) labels.
Proof.
  induction labels as [|l labels IH]; [done|]. simpl.
  destruct (py_in (Name l) ignore) eqn:Hin; simpl.
  - apply py_in_spec in Hin. rewrite filter_cons_False by naive_solver. done.
  - apply py_in_false in Hin. rewrite filter_cons_True by done. by f_equal.
Qed.

Lemma elem_of_IGNORE_TYPES x : x ∈ IGNORE_TYPES <-> x ∈ ignore_set.
Proof. unfold IGNORE_TYPES, ignore_set. set_solver. Qed.

(** C5: on a response with findings the filter returns exactly the
    subsequence of the findings whose category is not in the ignore set, in
    the order of the response, and the ignore set is DATE_TIME, DATE, TIME,
    IP_ADDRESS, MAC_ADDRESS, URL. *)
Theorem process_pii_entities_subsequence response object_name findings :
  Labels response = Some findings ->
  process_pii_entities response object_name
    = Some (filter (fun f => Name f ∉ ignore_set) findings)
  /\ filter (fun f => Name f ∉ ignore_set) findings `sublist_of` findings
  /\ list_to_set IGNORE_TYPES = ignore_set.
Proof.
  intros Hlabels. unfold process_pii_entities. rewrite Hlabels.
  split_and!.
  - f_equal. rewrite labels_not_in_filter.
    apply list_filter_iff. intros f. by rewrite elem_of_IGNORE_TYPES.
  - apply sublist_filter.
  - apply set_eq. intros x.
    by rewrite elem_of_list_to_set, elem_of_IGNORE_TYPES.
Qed.

Lemma process_pii_entities_subsequence_witness :
  process_pii_entities
    {| Labels := Some [ {| Name := "EMAIL"; Score := 0.95%float |};
                        {| Name := "DATE_TIME"; Score := 0.5%float |} ] |}
    "report.txt"
  = Some [ {| Name := "EMAIL"; Score := 0.95%float |} ].
Proof.
  destruct (process_pii_entities_subsequence
              {| Labels := Some [ {| Name := "EMAIL"; Score := 0.95%float |};
                                  {| Name := "DATE_TIME";
                                     Score := 0.5%float |} ] |}
              "report.txt" _ eq_refl) as [H _].
  rewrite H. vm_compute. reflexivity.
Defined.

(** C6: the filter is idempotent for every ignore list, and filtering
    against the empty ignore list changes nothing; so the method, which
    filters against [IGNORE_TYPES], returns its own result unchanged. *)
Theorem labels_not_in_idempotent :
  (forall ignore findings,
     labels_not_in ignore (labels_not_in ignore findings)
     = labels_not_in ignore findings)
  /\ (forall findings, labels_not_in [] findings = findings)
  /\ (forall findings object_name,
        process_pii_entities
          {| Labels := process_pii_entities {| Labels := Some findings |}
                         object_name |} object_name
        = process_pii_entities {| Labels := Some findings |} object_name).
Proof.
  assert (forall ignore findings,
            labels_not_in ignore (labels_not_in ignore findings)
            = labels_not_in ignore findings) as Hidem.
  { intros ignore findings. induction findings as [|l findings IH]; [done|].
    simpl. destruct (py_in (Name l) ignore) eqn:Hin; simpl; [done|].
    rewrite Hin. simpl. by f_equal. }
  split_and!; [done| |].
  - intros findings. induction findings as [|l findings IH]; [done|].
    simpl. by f_equal.
  - intros findings object_name. unfold process_pii_entities. simpl.
    by rewrite Hidem.
Qed.

(** ** Running the methods of the inspector *)

Arguments slice_to : simpl never.

Ltac unfold_M :=
  unfold mbind, M_bind, print, emit, raise, lift, mret, M_ret.

Lemma read_s3_object_content_run self bucket key content w :
  get_object (s3 self) bucket key = Ok content ->
  read_s3_object_content self bucket key w
    = (decode_content content,
       {| trace := trace w ++ [GetObject bucket key]; rng := rng w |}).
Proof.
  intros Hget. unfold read_s3_object_content. unfold_M. cbn -[app].
  by rewrite Hget.
Qed.

Lemma check_for_pii_empty self bucket_name object_name w :
  check_for_pii_using_aws_comprehend self bucket_name object_name [] w
    = (Ok None,
       {| trace := trace w ++ [Print (EmptyContent bucket_name object_name)];
          rng := rng w |}).
Proof. reflexivity. Qed.

Lemma check_for_pii_nonempty self bucket_name object_name content_str w :
  content_str <> [] ->
  check_for_pii_using_aws_comprehend self bucket_name object_name content_str w
    = (result_map Some
         (contains_pii_entities (comprehend self) (slice_to 90000 content_str)),
       {| trace := trace w
                   ++ [ContainsPiiEntities (slice_to 90000 content_str)];
          rng := rng w |}).
Proof.
  intros Hne. destruct content_str as [|ch t]; [done|].
  unfold check_for_pii_using_aws_comprehend. unfold_M. cbn -[app].
  by destruct (contains_pii_entities _ _).
Qed.

(** What the loop body does up to the classifier's answer. *)
Lemma inspect_object_classified self bucket_name object_name content
    content_str response w :
  get_object (s3 self) bucket_name object_name = Ok content ->
  decode_content content = Ok content_str ->
  content_str <> [] ->
  contains_pii_entities (comprehend self) (slice_to 90000 content_str)
    = Ok response ->
  inspect_object self bucket_name object_name w
  = (match process_pii_entities response object_name with
     | Some ((_ :: _) as labels) =>
         _ ← print (PiiFound bucket_name object_name);
         _ ← print_labels labels;
         _ ← print_preview self bucket_name object_name content_str;
         print Blank
     | _ => print (NoPiiFound bucket_name object_name)
     end)
      {| trace := trace w
                  ++ [Print (Checking bucket_name object_name);
                      GetObject bucket_name object_name;
                      ContainsPiiEntities (slice_to 90000 content_str)];
         rng := rng w |}.
Proof.
  intros Hget Hdec Hne Hresp. unfold inspect_object.
  erewrite bind_Ok by reflexivity.
  erewrite bind_Ok
    by (rewrite (read_s3_object_content_run _ _ _ _ _ Hget), Hdec; reflexivity).
  erewrite bind_Ok
    by (rewrite check_for_pii_nonempty, Hresp by done; reflexivity).
  cbn -[app slice_to process_pii_entities]. by rewrite <- !app_assoc.
Qed.

(** C7: on empty decoded text the classifier client returns [None] having
    only printed that the content is empty, and the loop body then ends
    normally for that object: the events of the object are the fetch and the
    two printed lines, with no call to the classification service. *)
Theorem empty_content_short_circuits self bucket_name object_name content w :
  get_object (s3 self) bucket_name object_name = Ok content ->
  decode_content content = Ok [] ->
  check_for_pii_using_aws_comprehend self bucket_name object_name [] w
    = (Ok None,
       {| trace := trace w ++ [Print (EmptyContent bucket_name object_name)];
          rng := rng w |})
  /\ inspect_object self bucket_name object_name w
     = (Ok tt,
        {| trace := trace w
                    ++ [Print (Checking bucket_name object_name);
                        GetObject bucket_name object_name;
                        Print (EmptyContent bucket_name object_name)];
           rng := rng w |})
  /\ forall txt, ContainsPiiEntities txt
                 ∉ events (inspect_object self bucket_name object_name)
                     {| trace := []; rng := rng w |}.
Proof.
  intros Hget Hdec.
  assert (forall w', inspect_object self bucket_name object_name w'
     = (Ok tt,
        {| trace := trace w'
                    ++ [Print (Checking bucket_name object_name);
                        GetObject bucket_name object_name;
                        Print (EmptyContent bucket_name object_name)];
           rng := rng w' |})) as Hrun.
  { intros w'. unfold inspect_object.
    erewrite bind_Ok by reflexivity.
    erewrite bind_Ok
      by (rewrite (read_s3_object_content_run _ _ _ _ _ Hget), Hdec;
          reflexivity).
    erewrite bind_Ok by apply check_for_pii_empty.
    unfold_M. cbn -[app]. by rewrite <- !app_assoc. }
  split_and!; [done|apply Hrun|].
  intros txt. unfold events. rewrite Hrun. cbn.
  rewrite !elem_of_cons, elem_of_nil. naive_solver.
Qed.

Lemma empty_content_short_circuits_witness :
  inspect_object sample_size_3 "logs-bucket" "a" {| trace := []; rng := [] |}
  = (Ok tt,
     {| trace := [Print (Checking "logs-bucket" "a");
                  GetObject "logs-bucket" "a";
                  Print (EmptyContent "logs-bucket" "a")];
        rng := [] |}).
Proof.
  apply (empty_content_short_circuits sample_size_3 "logs-bucket" "a" []
           {| trace := []; rng := [] |}); reflexivity.
Defined.

(** ** [inspect_bucket] *)

(** C8: when the listing returns no objects the sample is empty, the
    message about the empty or unlistable bucket is printed, and the
    inspection ends normally having fetched no object and classified
    nothing: after the opening line, the listing call and that message are
    its only events. *)
Theorem empty_bucket_is_noop self bucket_name w :
  list_objects_v2 (s3 self) bucket_name = Ok {| Contents := None |} ->
  run (sample_s3_bucket_contents self bucket_name) w = Ok []
  /\ inspect_bucket self bucket_name w
     = (Ok tt,
        {| trace := trace w
                    ++ [Print (InspectingBucket bucket_name);
                        ListObjectsV2 bucket_name;
                        Print (BucketEmpty bucket_name)];
           rng := rng w |})
  /\ forall bucket key txt,
       (GetObject bucket key
          ∉ events (inspect_bucket self bucket_name)
              {| trace := []; rng := rng w |})
       /\ (ContainsPiiEntities txt
             ∉ events (inspect_bucket self bucket_name)
                 {| trace := []; rng := rng w |}).
Proof.
  intros Hlist.
  assert (forall w', inspect_bucket self bucket_name w'
     = (Ok tt,
        {| trace := trace w'
                    ++ [Print (InspectingBucket bucket_name);
                        ListObjectsV2 bucket_name;
                        Print (BucketEmpty bucket_name)];
           rng := rng w' |})) as Hrun.
  { intros w'. unfold inspect_bucket.
    erewrite bind_Ok by reflexivity.
    erewrite bind_Ok
      by exact (sample_s3_bucket_contents_unlisted _ _ _ Hlist).
    cbn -[app]. unfold_M. cbn -[app]. by rewrite <- !app_assoc. }
  split_and!.
  - unfold run. by rewrite (sample_s3_bucket_contents_unlisted _ _ _ Hlist).
  - apply Hrun.
  - intros bucket key txt. unfold events. rewrite Hrun. cbn.
    rewrite !elem_of_cons, !elem_of_nil. naive_solver.
Qed.

Lemma empty_bucket_is_noop_witness :
  inspect_bucket empty_bucket_inspector "logs-bucket"
    {| trace := []; rng := [4; 2]%nat |}
  = (Ok tt,
     {| trace := [Print (InspectingBucket "logs-bucket");
                  ListObjectsV2 "logs-bucket";
                  Print (BucketEmpty "logs-bucket")];
        rng := [4; 2]%nat |}).
Proof.
  apply (empty_bucket_is_noop empty_bucket_inspector "logs-bucket"
           {| trace := []; rng := [4; 2]%nat |}). reflexivity.
Defined.

(** C10: on a response without ['Labels'] [process_pii_entities] returns
    [None], the loop body prints "No PII entities found" for the object and
    ends normally, and its events are those of the same object under a
    classifier that answers with an empty list of labels. *)
Theorem missing_labels_reported_clean self bucket_name object_name content
    content_str response w :
  get_object (s3 self) bucket_name object_name = Ok content ->
  decode_content content = Ok content_str ->
  content_str <> [] ->
  contains_pii_entities (comprehend self) (slice_to 90000 content_str)
    = Ok response ->
  Labels response = None ->
  process_pii_entities response object_name = None
  /\ inspect_object self bucket_name object_name w
     = (Ok tt,
        {| trace := trace w
                    ++ [Print (Checking bucket_name object_name);
                        GetObject bucket_name object_name;
                        ContainsPiiEntities (slice_to 90000 content_str);
                        Print (NoPiiFound bucket_name object_name)];
           rng := rng w |})
  /\ forall clean : GumshoeInspector,
       get_object (s3 clean) bucket_name object_name = Ok content ->
       contains_pii_entities (comprehend clean) (slice_to 90000 content_str)
         = Ok {| Labels := Some [] |} ->
       inspect_object clean bucket_name object_name w
       = inspect_object self bucket_name object_name w.
Proof.
  intros Hget Hdec Hne Hresp Hlabels.
  assert (process_pii_entities response object_name = None) as Hnone
    by (unfold process_pii_entities; by rewrite Hlabels).
  split_and!; [done| |].
  - rewrite (inspect_object_classified _ _ _ _ _ _ _ Hget Hdec Hne Hresp).
    rewrite Hnone. unfold_M. cbn -[app slice_to]. by rewrite <- !app_assoc.
  - intros clean Hget' Hresp'.
    rewrite (inspect_object_classified _ _ _ _ _ _ _ Hget Hdec Hne Hresp).
    rewrite (inspect_object_classified _ _ _ _ _ _ _ Hget' Hdec Hne Hresp').
    by rewrite Hnone.
Qed.

Lemma missing_labels_reported_clean_witness :
  inspect_object no_labels_inspector "logs-bucket" "people.csv"
    {| trace := []; rng := [] |}
  = (Ok tt,
     {| trace := [Print (Checking "logs-bucket" "people.csv");
                  GetObject "logs-bucket" "people.csv";
                  ContainsPiiEntities [65%N];
                  Print (NoPiiFound "logs-bucket" "people.csv")];
        rng := [] |}).
Proof.
  refine (proj1 (proj2 (missing_labels_reported_clean no_labels_inspector
           "logs-bucket" "people.csv" ["A"%byte] [65%N] {| Labels := None |}
           {| trace := []; rng := [] |} _ _ _ _ _)));
    first [reflexivity | discriminate].
Defined.

(** ** The preview *)

Lemma numbered_lines_app evs1 evs2 :
  numbered_lines (evs1 ++ evs2) = numbered_lines evs1 ++ numbered_lines evs2.
Proof.
  induction evs1 as [|[[]| | |] evs1 IH]; simpl; by rewrite ?IH.
Qed.

Lemma print_numbered_run lines : forall i w,
  exists evs,
    print_numbered i lines w
      = (Ok tt, {| trace := trace w ++ evs; rng := rng w |})
    /\ numbered_lines evs = lines.
Proof.
  induction lines as [|l lines IH]; intros i w.
  - exists []. simpl. unfold_M. rewrite app_nil_r. by destruct w.
  - destruct (IH (S i) {| trace := trace w ++ [Print (Numbered i l)];
                          rng := rng w |}) as (evs & Hrun & Hevs).
    exists (Print (Numbered i l) :: evs). split.
    + cbn [print_numbered]. erewrite bind_Ok by reflexivity.
      rewrite Hrun. cbn -[app]. by rewrite <- app_assoc.
    + simpl. by rewrite Hevs.
Qed.

(** With any positive [display_lines] the preview prints the first ten
    lines of the content. *)
Lemma print_preview_on self bucket_name object_name content_str w :
  0 < display_lines self ->
  exists evs,
    print_preview self bucket_name object_name content_str w
      = (Ok tt, {| trace := trace w ++ evs; rng := rng w |})
    /\ numbered_lines evs = slice_to 10 (splitlines content_str).
Proof.
  intros Hpos. unfold print_preview.
  rewrite (proj2 (Z.ltb_lt _ _) Hpos).
  destruct (print_numbered_run (slice_to 10 (splitlines content_str)) 1%nat
              {| trace := trace w ++ [Print (FirstLines (display_lines self)
                                               bucket_name object_name)];
                 rng := rng w |}) as (evs & Hrun & Hevs).
  erewrite bind_Ok by reflexivity. erewrite bind_Ok by exact Hrun.
  destruct (10 <? _).
  - exists (Print (FirstLines (display_lines self) bucket_name object_name)
            :: evs ++ [Print Ellipsis]).
    split.
    + unfold_M. cbn -[app]. by rewrite <- !app_assoc.
    + simpl. rewrite numbered_lines_app, Hevs. simpl. by rewrite app_nil_r.
  - exists (Print (FirstLines (display_lines self) bucket_name object_name)
            :: evs).
    split.
    + unfold_M. cbn -[app]. by rewrite <- !app_assoc.
    + done.
Qed.

(** With [display_lines] at 0 (or below) the preview prints nothing. *)
Lemma print_preview_off self bucket_name object_name content_str w :
  display_lines self <= 0 ->
  print_preview self bucket_name object_name content_str w = (Ok tt, w).
Proof.
  intros Hoff. unfold print_preview.
  by rewrite (proj2 (Z.ltb_ge _ _) Hoff).
Qed.

(** C3 (fails on the code): with findings and a positive preview line count
    [N] the preview is exactly the first [N] lines.  With [display_lines = 3]
    and an object of five lines the loop body announces "First 3 lines" and
    then prints all five: it cuts the lines at the literal 10. *)
Theorem preview_not_cut_at_display_lines w :
  events (inspect_object display_lines_3 "logs-bucket" "people.csv") w
  = trace w
    ++ [Print (Checking "logs-bucket" "people.csv");
        GetObject "logs-bucket" "people.csv";
        ContainsPiiEntities [49; 10; 50; 10; 51; 10; 52; 10; 53]%N;
        Print (PiiFound "logs-bucket" "people.csv");
        Print (PiiType "EMAIL" 0.95%float);
        Print (FirstLines 3 "logs-bucket" "people.csv");
        Print (Numbered 1 [49%N]);
        Print (Numbered 2 [50%N]);
        Print (Numbered 3 [51%N]);
        Print (Numbered 4 [52%N]);
        Print (Numbered 5 [53%N]);
        Print Blank]
  /\ numbered_lines
       (events (inspect_object display_lines_3 "logs-bucket" "people.csv")
          {| trace := []; rng := rng w |})
     <> slice_to (display_lines display_lines_3)
          (splitlines [49; 10; 50; 10; 51; 10; 52; 10; 53]%N).
Proof.
  split.
  - unfold events.
    erewrite (inspect_object_classified display_lines_3 _ _ five_lines
                [49; 10; 50; 10; 51; 10; 52; 10; 53]%N);
      [|reflexivity|reflexivity|discriminate|reflexivity].
    cbv -[app]. rewrite <- !app_assoc. reflexivity.
  - vm_compute. discriminate.
Qed.

(** ** The payload of the classification call *)

Lemma slice_to_replicate {A} (n m : Z) (x : A) :
  0 <= n <= m ->
  slice_to n (replicate (Z.to_nat m) x) = replicate (Z.to_nat n) x.
Proof.
  intros Hn. unfold slice_to. rewrite (proj2 (Z.leb_le _ _)) by lia.
  rewrite take_replicate. f_equal. lia.
Qed.

(** U+00E9 takes two bytes. *)
Lemma utf8_encode_e_acute n :
  exists bs,
    utf8_encode (replicate n 233%N) = Ok bs /\ length bs = (2 * n)%nat.
Proof.
  induction n as [|n (bs & Hbs & Hlen)].
  - by exists [].
  - exists ("195"%byte :: "169"%byte :: bs). split.
    + cbn [replicate utf8_encode]. rewrite Hbs. reflexivity.
    + simpl. lia.
Qed.

(** C2 (fails on the code): the submitted payload stays within the 100,000
    bytes of the service even when every character is multi-byte.  For a text
    of 90,001 characters U+00E9 the method submits the first 90,000 of them,
    which are 180,000 bytes of UTF-8: the cut is by characters. *)
Theorem payload_exceeds_byte_ceiling self bucket_name object_name w :
  exists payload bs,
    events (check_for_pii_using_aws_comprehend self bucket_name object_name
              (replicate (Z.to_nat 90001) 233%N)) w
      = trace w ++ [ContainsPiiEntities payload]
    /\ utf8_encode payload = Ok bs
    /\ Z.of_nat (length bs) = 180000
    /\ COMPREHEND_MAX_BYTES < Z.of_nat (length bs).
Proof.
  destruct (utf8_encode_e_acute (Z.to_nat 90000)) as (bs & Hbs & Hlen).
  exists (replicate (Z.to_nat 90000) 233%N), bs.
  assert (Z.of_nat (length bs) = 180000) as Hbytes by lia.
  split_and!; [|done|done|unfold COMPREHEND_MAX_BYTES; lia].
  unfold events. rewrite check_for_pii_nonempty.
  - cbn [snd trace]. by rewrite slice_to_replicate by lia.
  - replace (Z.to_nat 90001) with (S (Z.to_nat 90000)) by lia. discriminate.
Qed.

(** ** The content decoder *)

Lemma utf8_decode_cons h c s1 :
  utf8_decode h (c :: s1) =
    let ch := Byte.to_N c in
    if (ch <? 0x80)%N then result_map (cons ch) (utf8_decode h s1)
    else if (ch <? 0xC2)%N then on_error h (utf8_decode h s1)
    else if (ch <? 0xE0)%N then
      match s1 with
      | [] => on_error h (Ok [])
      | c2 :: s2 =>
        let ch2 := Byte.to_N c2 in
        if is_continuation ch2 then
          result_map
            (cons (N.shiftl ch 6 + ch2 - (N.shiftl 0xC0 6 + 0x80))%N)
            (utf8_decode h s2)
        else on_error h (utf8_decode h s1)
      end
    else if (ch <? 0xF0)%N then
      match s1 with
      | [] => on_error h (Ok [])
      | c2 :: s2 =>
        let ch2 := Byte.to_N c2 in
        if negb (is_continuation ch2)
           || (if (ch2 <? 0xA0)%N then (ch =? 0xE0)%N else (ch =? 0xED)%N)
        then on_error h (utf8_decode h s1)
        else
          match s2 with
          | [] => on_error h (Ok [])
          | c3 :: s3 =>
            let ch3 := Byte.to_N c3 in
            if is_continuation ch3 then
              result_map
                (cons (N.shiftl ch 12 + N.shiftl ch2 6 + ch3
                       - (N.shiftl 0xE0 12 + N.shiftl 0x80 6 + 0x80))%N)
                (utf8_decode h s3)
            else on_error h (utf8_decode h s2)
          end
      end
    else if (ch <? 0xF5)%N then
      match s1 with
      | [] => on_error h (Ok [])
      | c2 :: s2 =>
        let ch2 := Byte.to_N c2 in
        if negb (is_continuation ch2)
           || (if (ch2 <? 0x90)%N then (ch =? 0xF0)%N else (ch =? 0xF4)%N)
        then on_error h (utf8_decode h s1)
        else
          match s2 with
          | [] => on_error h (Ok [])
          | c3 :: s3 =>
            let ch3 := Byte.to_N c3 in
            if is_continuation ch3 then
              match s3 with
              | [] => on_error h (Ok [])
              | c4 :: s4 =>
                let ch4 := Byte.to_N c4 in
                if is_continuation ch4 then
                  result_map
                    (cons (N.shiftl ch 18 + N.shiftl ch2 12
                           + N.shiftl ch3 6 + ch4
                           - (N.shiftl 0xF0 18 + N.shiftl 0x80 12
                              + N.shiftl 0x80 6 + 0x80))%N)
                    (utf8_decode h s4)
                else on_error h (utf8_decode h s3)
              end
            else on_error h (utf8_decode h s2)
          end
      end
    else on_error h (utf8_decode h s1).
Proof. reflexivity. Qed.

(** Every path of the decoder goes on with a shorter input, so facts about
    it go by induction on a bound of the length. *)
Ltac decode_cases :=
  rewrite utf8_decode_cons; cbv beta iota zeta;
  repeat (case_match; subst; cbv beta iota zeta).

Lemma utf8_decode_ignore_total_bounded n : forall s,
  (length s <= n)%nat -> exists t, utf8_decode Ignore s = Ok t.
Proof.
  induction n as [|n IH]; intros [|c s1] Hlen;
    [by exists []|simpl in Hlen; lia|by exists []|].
  decode_cases; simpl in Hlen;
    repeat match goal with
    | |- context [utf8_decode Ignore ?s] =>
        let t := fresh "t" in let Ht := fresh "Ht" in
        destruct (IH s) as [t Ht]; [simpl; lia|rewrite Ht]
    end; simpl; eauto.
Qed.

Lemma utf8_decode_ignore_total s : exists t, utf8_decode Ignore s = Ok t.
Proof. by apply (utf8_decode_ignore_total_bounded (length s)). Qed.

Lemma utf8_decode_strict_raises_bounded n : forall s e,
  (length s <= n)%nat ->
  utf8_decode Strict s = Raise e -> e = UnicodeDecodeError.
Proof.
  induction n as [|n IH]; intros [|c s1] e Hlen;
    [done|simpl in Hlen; lia|done|].
  decode_cases; simpl in Hlen; simpl;
    try (intros [= <-]; reflexivity);
    match goal with
    | |- context [utf8_decode Strict ?s] =>
        destruct (utf8_decode Strict s) eqn:Hs; simpl; [done|];
        intros [= <-]; apply (IH s); [simpl; lia|done]
    end.
Qed.

Lemma to_N_byte_of_N n : (n < 256)%N -> Byte.to_N (byte_of_N n) = n.
Proof.
  intros Hn. unfold byte_of_N. destruct (Byte.of_N n) as [b|] eqn:Hb.
  - by apply Byte.to_of_N.
  - apply Byte.of_N_None_iff in Hb. lia.
Qed.

(** Setting bits above those of [x] adds. *)
Lemma lor_high_low hi x k :
  N.land hi (N.ones k) = 0%N -> (x < 2 ^ k)%N -> N.lor hi x = (hi + x)%N.
Proof.
  intros Hhi Hx.
  assert (N.land hi x = 0%N) as Hdisj.
  { rewrite <- (N.mod_small x (2 ^ k)) by done.
    rewrite <- N.land_ones, (N.land_comm x), N.land_assoc, Hhi.
    apply N.land_0_l. }
  by rewrite <- N.lxor_lor, <- N.add_nocarry_lxor.
Qed.

Lemma land_0x3F x : N.land x 0x3F = (x mod 64)%N.
Proof. change 0x3F%N with (N.ones 6). by rewrite N.land_ones. Qed.

Ltac Zify.zify_post_hook ::= Z.to_euclidean_division_equations.


Ltac to_arith :=
  rewrite ?land_0x3F, ?N.shiftr_div_pow2;
  rewrite ?(lor_high_low 0x80 _ 6), ?(lor_high_low 0xC0 _ 5),
          ?(lor_high_low 0xE0 _ 4), ?(lor_high_low 0xF0 _ 3)
    by first [reflexivity | lia].

Ltac decide_tests :=
  unfold is_continuation;
  repeat match goal with
  | |- context [(?a <? ?b)%N] =>
      destruct (N.ltb_spec a b); try lia
  | |- context [(?a <=? ?b)%N] =>
      destruct (N.leb_spec a b); try lia
  | |- context [(?a =? ?b)%N] =>
      destruct (N.eqb_spec a b); try lia
  end;
  cbn [andb orb negb].

(** Decoding what [utf8_encode_char] wrote gives the code point back. *)
Lemma utf8_decode_encode_char h ch b rest :
  utf8_encode_char ch = Ok b ->
  utf8_decode h (b ++ rest) = result_map (cons ch) (utf8_decode h rest).
Proof.
  unfold utf8_encode_char.
  destruct (N.ltb_spec ch 0x80); [|destruct (N.ltb_spec ch 0x800);
    [|destruct (N.ltb_spec ch 0x10000);
      [destruct (N.leb_spec 0xD800 ch), (N.leb_spec ch 0xDFFF)
      |destruct (N.leb_spec ch 0x10FFFF)]]];
    cbn [andb]; intros [= <-]; cbn [app];
    rewrite utf8_decode_cons; cbv beta iota zeta;
    to_arith; rewrite !to_N_byte_of_N by lia;
    rewrite ?N.shiftl_mul_pow2; decide_tests;
    do 2 f_equal; lia.
Qed.

Lemma utf8_decode_encode t : forall content,
  utf8_encode t = Ok content -> utf8_decode Strict content = Ok t.
Proof.
  induction t as [|ch t IH]; intros content; simpl.
  - by intros [= <-].
  - destruct (utf8_encode_char ch) as [b|] eqn:Hch; [|done].
    destruct (utf8_encode t) as [bs|]; [|done]. intros [= <-].
    rewrite (utf8_decode_encode_char _ _ _ _ Hch), (IH bs) by done. done.
Qed.

Lemma byte_of_N_to_N c n : n = Byte.to_N c -> byte_of_N n = c.
Proof. intros ->. unfold byte_of_N. by rewrite Byte.of_to_N. Qed.

(** The tests the decoder made, as facts about the byte values. *)
Ltac test_facts :=
  unfold is_continuation in *;
  repeat match goal with
  | H : context [(?a <? ?b)%N] |- _ => destruct (N.ltb_spec a b)
  | H : context [(?a <=? ?b)%N] |- _ => destruct (N.leb_spec a b)
  | H : context [(?a =? ?b)%N] |- _ => destruct (N.eqb_spec a b)
  end;
  cbn [andb orb negb] in *; try discriminate.

(** What the strict decoder accepts is the encoding of what it returns. *)
Lemma utf8_encode_decode_bounded n : forall s t,
  (length s <= n)%nat ->
  utf8_decode Strict s = Ok t -> utf8_encode t = Ok s.
Proof.
  induction n as [|n IH]; intros [|c s1] t Hlen;
    [by intros [= <-]|simpl in Hlen; lia|by intros [= <-]|].
  decode_cases; simpl in Hlen; cbn [on_error]; try discriminate;
    match goal with
    | |- context [utf8_decode Strict ?s] =>
        destruct (utf8_decode Strict s) as [t'|] eqn:Hs; [|discriminate];
        apply IH in Hs; [|simpl; lia]
    end;
    intros [= <-]; cbn [utf8_encode]; rewrite Hs;
    repeat match goal with
    | c : Byte.byte |- _ =>
        lazymatch goal with
        | _ : (Byte.to_N c <= 255)%N |- _ => fail
        | _ => pose proof (Byte.to_N_bounded c)
        end
    end;
    test_facts; unfold utf8_encode_char; rewrite ?N.shiftl_mul_pow2;
    decide_tests; to_arith; cbn [app];
    repeat f_equal; apply byte_of_N_to_N; lia.
Qed.

(** Valid UTF-8 is what the strict decoder accepts. *)
Lemma valid_utf8_strict content :
  valid_utf8 content <-> exists t, utf8_decode Strict content = Ok t.
Proof.
  split; intros [t Ht]; exists t.
  - by apply utf8_decode_encode.
  - by apply (utf8_encode_decode_bounded (length content)).
Qed.

(** C4: the content decoder never raises, whatever the bytes (the empty
    input gives the empty text), and on valid UTF-8 it is lossless: the text
    it returns encodes to the input bytes. *)
Theorem decode_content_total_lossless content :
  exists content_str,
    decode_content content = Ok content_str
    /\ (content = [] -> content_str = [])
    /\ (valid_utf8 content -> utf8_encode content_str = Ok content).
Proof.
  unfold decode_content.
  destruct (utf8_decode Strict content) as [t|e] eqn:Hstrict.
  - exists t. split_and!; [done| |].
    + intros ->. by injection Hstrict as <-.
    + intros [t0 Ht0]. rewrite (utf8_decode_encode _ _ Ht0) in Hstrict.
      by injection Hstrict as <-.
  - rewrite (utf8_decode_strict_raises_bounded _ _ _ (Nat.le_refl _) Hstrict).
    destruct (utf8_decode_ignore_total content) as [t Ht].
    exists t. split_and!; [done| |].
    + intros ->. by injection Ht as <-.
    + intros [t0 Ht0]. by rewrite (utf8_decode_encode _ _ Ht0) in Hstrict.
Qed.

Lemma decode_content_total_lossless_witness :
  valid_utf8 ["195"; "169"; "A"]%byte
  /\ exists content_str,
       decode_content ["195"; "169"; "A"]%byte = Ok content_str
       /\ utf8_encode content_str = Ok ["195"; "169"; "A"]%byte.
Proof.
  assert (valid_utf8 ["195"; "169"; "A"]%byte) as Hvalid
    by (exists [233; 65]%N; reflexivity).
  split; [exact Hvalid|].
  destruct (decode_content_total_lossless ["195"; "169"; "A"]%byte)
    as (content_str & Hdec & _ & Hlossless).
  exists content_str. split; [exact Hdec|exact (Hlossless Hvalid)].
Defined.

(** * Further properties *)

(** ** More on the decoder *)

Lemma utf8_encode_single ch bs :
  utf8_encode [ch] = Ok bs -> utf8_encode_char ch = Ok bs.
Proof.
  cbn [utf8_encode]. destruct (utf8_encode_char ch) as [b|]; [|done].
  rewrite app_nil_r. congruence.
Qed.

Lemma utf8_encode_cons ch t b bs :
  utf8_encode_char ch = Ok b -> utf8_encode t = Ok bs ->
  utf8_encode (ch :: t) = Ok (b ++ bs).
Proof. intros Hb Hbs. cbn [utf8_encode]. by rewrite Hb, Hbs. Qed.

(** The tests passed on the way to a decoded code point decide the same
    way when the sequence stands alone. *)
Ltac replay_tests :=
  rewrite utf8_decode_cons; cbv beta iota zeta;
  repeat (match goal with
          | H : ?b = _ |- context [if ?b then _ else _] => rewrite H
          end; cbv beta iota zeta);
  reflexivity.

(** Whatever the handler, the text the decoder returns encodes to bytes of
    the input, in their order. *)
Lemma utf8_decode_sublist_bounded n : forall h s t,
  (length s <= n)%nat ->
  utf8_decode h s = Ok t ->
  exists bs, utf8_encode t = Ok bs /\ bs `sublist_of` s.
Proof.
  induction n as [|n IH]; intros h [|c s1] t Hlen;
    [intros [= <-]; by exists []|simpl in Hlen; lia
    |intros [= <-]; by exists []|].
  decode_cases; simpl in Hlen;
    lazymatch goal with
    | |- result_map (cons ?cp) (utf8_decode h ?s) = Ok t -> _ =>
        destruct (utf8_decode h s) as [t'|] eqn:Hs; [|discriminate];
        apply IH in Hs as (bs & Hbs & Hsub); [|simpl; lia];
        intros [= <-];
        lazymatch goal with
        | |- context [?c1 :: ?c2 :: ?c3 :: ?c4 :: s] =>
            assert (utf8_decode Strict [c1; c2; c3; c4] = Ok [cp]) as Hone
              by replay_tests;
            exists ([c1; c2; c3; c4] ++ bs)
        | |- context [?c1 :: ?c2 :: ?c3 :: s] =>
            assert (utf8_decode Strict [c1; c2; c3] = Ok [cp]) as Hone
              by replay_tests;
            exists ([c1; c2; c3] ++ bs)
        | |- context [?c1 :: ?c2 :: s] =>
            assert (utf8_decode Strict [c1; c2] = Ok [cp]) as Hone
              by replay_tests;
            exists ([c1; c2] ++ bs)
        | |- context [?c1 :: s] =>
            assert (utf8_decode Strict [c1] = Ok [cp]) as Hone
              by replay_tests;
            exists ([c1] ++ bs)
        end;
        apply (utf8_encode_decode_bounded _ _ _ (Nat.le_refl _)) in Hone;
        apply utf8_encode_single in Hone;
        split; [by apply utf8_encode_cons|];
        cbn [app]; repeat apply sublist_skip; exact Hsub
    | |- on_error h (Ok []) = Ok t -> _ =>
        destruct h; [discriminate|]; intros [= <-];
        exists []; split; [done|apply sublist_nil_l]
    | |- on_error h (utf8_decode h ?s) = Ok t -> _ =>
        destruct h; [discriminate|]; cbn [on_error]; intros Hs;
        apply IH in Hs as (bs & Hbs & Hsub); [|simpl; lia];
        exists bs; split; [done|];
        repeat first [exact Hsub | apply sublist_cons]
    end.
Qed.

(** Where the strict handler succeeds the ignoring handler gives the same
    text. *)
Lemma utf8_decode_strict_ignore_bounded n : forall s t,
  (length s <= n)%nat ->
  utf8_decode Strict s = Ok t -> utf8_decode Ignore s = Ok t.
Proof.
  induction n as [|n IH]; intros [|c s1] t Hlen;
    [done|simpl in Hlen; lia|done|].
  rewrite !utf8_decode_cons; cbv beta iota zeta;
    repeat (case_match; subst; cbv beta iota zeta);
    simpl in Hlen; cbn [on_error]; try discriminate;
    match goal with
    | |- context [utf8_decode Strict ?s] =>
        destruct (utf8_decode Strict s) as [t'|] eqn:Hs; [|discriminate];
        apply IH in Hs; [|simpl; lia]; rewrite Hs; done
    end.
Qed.

Lemma utf8_encode_char_length ch b :
  utf8_encode_char ch = Ok b ->
  (1 <= length b <= 4)%nat /\ ((ch < 0x80)%N -> length b = 1%nat).
Proof.
  unfold utf8_encode_char. repeat case_match; intros [= <-]; simpl;
    (split; [lia|]); intros Hch;
    repeat match goal with
    | H : (_ <? _)%N = false |- _ => apply N.ltb_ge in H
    end; lia.
Qed.

(** A code point takes one to four bytes, and one when it is ASCII. *)
Lemma utf8_encode_length t : forall bs,
  utf8_encode t = Ok bs ->
  (length t <= length bs <= 4 * length t)%nat
  /\ (Forall (fun ch => (ch < 0x80)%N) t -> length bs = length t).
Proof.
  induction t as [|ch t IH]; intros bs; cbn [utf8_encode].
  - intros [= <-]. done.
  - destruct (utf8_encode_char ch) as [b|] eqn:Hch; [|done].
    destruct (utf8_encode t) as [bs'|]; [|done]. intros [= <-].
    apply utf8_encode_char_length in Hch as [Hb Hascii].
    destruct (IH bs' eq_refl) as [Hlen Hall].
    rewrite length_app. simpl. split; [lia|].
    intros [Hch Ht]%Forall_cons. rewrite Hascii, Hall by done. done.
Qed.

Lemma decode_content_is_ignore_decoding_lemma content :
  decode_content content = utf8_decode Ignore content.
Proof.
  unfold decode_content.
  destruct (utf8_decode Strict content) as [t|e] eqn:Hstrict.
  - symmetry. by apply (utf8_decode_strict_ignore_bounded (length content)).
  - by rewrite
      (utf8_decode_strict_raises_bounded _ _ _ (Nat.le_refl _) Hstrict).
Qed.

(** X1: the [try]/[except] of [read_s3_object_content] decodes as one
    decoding with [errors='ignore'] would: where the strict decoding
    succeeds the ignoring one gives the same text. *)
Theorem decode_content_is_ignore_decoding content :
  decode_content content = utf8_decode Ignore content
  /\ (forall content_str,
        utf8_decode Strict content = Ok content_str ->
        utf8_decode Ignore content = Ok content_str).
Proof.
  split.
  - apply decode_content_is_ignore_decoding_lemma.
  - intros content_str Hstrict.
    by apply (utf8_decode_strict_ignore_bounded (length content)).
Qed.

Lemma sublist_full {A} (l1 l2 : list A) :
  l1 `sublist_of` l2 -> (length l2 <= length l1)%nat -> l1 = l2.
Proof.
  induction 1 as [|x l1 l2 _ IH|x l1 l2 Hsub _]; simpl; intros Hlen.
  - done.
  - f_equal. apply IH. lia.
  - apply sublist_length in Hsub. lia.
Qed.

(** X2: decoding only omits bytes.  For every content the decoded text is
    encodable, its encoding is made of bytes of the content in their order,
    the text has at most as many characters as the content has bytes, and
    when the content is not valid UTF-8 some byte is left out. *)
Theorem decode_content_only_omits_bytes content :
  exists content_str bs,
    decode_content content = Ok content_str
    /\ utf8_encode content_str = Ok bs
    /\ bs `sublist_of` content
    /\ (length content_str <= length content)%nat
    /\ (~ valid_utf8 content -> (length bs < length content)%nat).
Proof.
  destruct (utf8_decode_ignore_total content) as [t Ht].
  destruct (utf8_decode_sublist_bounded _ _ _ _ (Nat.le_refl _) Ht)
    as (bs & Hbs & Hsub).
  exists t, bs. split_and!; [|done|done| |].
  - by rewrite decode_content_is_ignore_decoding_lemma.
  - apply utf8_encode_length in Hbs as [[Hlen _] _].
    apply sublist_length in Hsub. lia.
  - intros Hinvalid.
    destruct (decide (length content <= length bs)%nat) as [Hfull|]; [|lia].
    destruct Hinvalid. exists t.
    by rewrite <- (sublist_full _ _ Hsub Hfull).
Qed.

Lemma decode_content_only_omits_bytes_witness :
  exists content_str bs,
    decode_content ["255"; "A"]%byte = Ok content_str
    /\ utf8_encode content_str = Ok bs
    /\ (length bs < 2)%nat.
Proof.
  destruct (decode_content_only_omits_bytes ["255"; "A"]%byte)
    as (content_str & bs & Hdec & Henc & _ & _ & Hshort).
  exists content_str, bs. split_and!; [exact Hdec|exact Henc|].
  apply Hshort. intros [t Ht]%valid_utf8_strict. discriminate Ht.
Defined.

(** ** More on sampling *)



(** X4: a bucket of at most ten objects is sampled whole: the sample is a
    rearrangement of all its keys. *)
Theorem small_bucket_sampled_whole self bucket contents w :
  list_objects_v2 (s3 self) bucket = Ok {| Contents := Some contents |} ->
  (length contents <= 10)%nat ->
  exists res,
    run (sample_s3_bucket_contents self bucket) w = Ok res
    /\ res ≡ₚ Key <$> contents.
Proof.
  intros Hlist Hsmall.
  destruct (sample_s3_bucket_contents_listed self bucket contents w Hlist)
    as (res & left & Hrun & Hlen & Hperm).
  exists res. unfold run. rewrite Hrun. split; [done|].
  assert (length left = 0%nat) as Hleft.
  { apply Permutation_length in Hperm.
    rewrite length_app, length_fmap in Hperm. lia. }
  destruct left; [|done]. by rewrite app_nil_r in Hperm.
Qed.

Lemma small_bucket_sampled_whole_witness :
  exists res,
    run (sample_s3_bucket_contents sample_size_3 "logs-bucket")
        {| trace := []; rng := [7; 3; 9; 1; 0]%nat |} = Ok res
    /\ res ≡ₚ ["a"; "b"; "c"; "d"; "e"]%string.
Proof.
  apply (small_bucket_sampled_whole sample_size_3 "logs-bucket"
           [ {| Key := "a" |}; {| Key := "b" |}; {| Key := "c" |};
             {| Key := "d" |}; {| Key := "e" |} ]).
  - reflexivity.
  - simpl. lia.
Defined.

(** X5: when the listing call fails the exception leaves
    [inspect_bucket]: after the opening line and the listing call nothing is
    printed, fetched or classified, and no random draw is consumed. *)
Theorem listing_failure_ends_inspection self bucket_name e w :
  list_objects_v2 (s3 self) bucket_name = Raise e ->
  inspect_bucket self bucket_name w
  = (Raise e,
     {| trace := trace w ++ [Print (InspectingBucket bucket_name);
                             ListObjectsV2 bucket_name];
        rng := rng w |}).
Proof.
  intros Hlist. unfold inspect_bucket, sample_s3_bucket_contents.
  unfold_M. cbn -[app]. rewrite Hlist. by rewrite <- app_assoc.
Qed.

Lemma listing_failure_ends_inspection_witness :
  inspect_bucket denied_inspector "logs-bucket" {| trace := []; rng := [] |}
  = (Raise (ClientError "AccessDenied"),
     {| trace := [Print (InspectingBucket "logs-bucket");
                  ListObjectsV2 "logs-bucket"];
        rng := [] |}).
Proof.
  apply (listing_failure_ends_inspection denied_inspector "logs-bucket"
           (ClientError "AccessDenied") {| trace := []; rng := [] |}).
  reflexivity.
Defined.

(** ** More on the payload *)

Lemma slice_to_90000 {A} (l : list A) :
  slice_to 90000 l = take (Z.to_nat 90000) l.
Proof. reflexivity. Qed.

(** X6: a non-empty text of at most 90,000 characters is submitted to the
    classifier as it is, in one call, and the answer of the classifier, or
    its failure, is what the method returns. *)
Theorem short_text_submitted_whole self bucket_name object_name content_str w :
  content_str <> [] ->
  Z.of_nat (length content_str) <= 90000 ->
  check_for_pii_using_aws_comprehend self bucket_name object_name content_str w
  = (result_map Some (contains_pii_entities (comprehend self) content_str),
     {| trace := trace w ++ [ContainsPiiEntities content_str];
        rng := rng w |}).
Proof.
  intros Hne Hshort. rewrite check_for_pii_nonempty by done.
  by rewrite slice_to_90000, take_ge by lia.
Qed.

Lemma short_text_submitted_whole_witness :
  check_for_pii_using_aws_comprehend no_labels_inspector "logs-bucket"
    "people.csv" [72; 105]%N {| trace := []; rng := [] |}
  = (Ok (Some {| Labels := None |}),
     {| trace := [ContainsPiiEntities [72; 105]%N]; rng := [] |}).
Proof.
  apply (short_text_submitted_whole no_labels_inspector "logs-bucket"
           "people.csv" [72; 105]%N {| trace := []; rng := [] |}).
  - discriminate.
  - simpl. lia.
Defined.

(** X7: for every non-empty text the method makes one classifier call; what
    it submits is a non-empty prefix of the text of [min(90000, len(text))]
    characters. *)
Theorem payload_is_prefix_of_90000 self bucket_name object_name content_str w :
  content_str <> [] ->
  exists payload,
    events (check_for_pii_using_aws_comprehend self bucket_name object_name
              content_str) w
      = trace w ++ [ContainsPiiEntities payload]
    /\ payload `prefix_of` content_str
    /\ payload <> []
    /\ Z.of_nat (length payload) = Z.min 90000 (Z.of_nat (length content_str)).
Proof.
  intros Hne. exists (slice_to 90000 content_str).
  unfold events. rewrite check_for_pii_nonempty by done.
  rewrite slice_to_90000. split_and!.
  - done.
  - apply prefix_take.
  - destruct content_str as [|ch t]; [done|].
    replace (Z.to_nat 90000) with (S (Z.to_nat 89999)) by lia. done.
  - rewrite length_take. lia.
Qed.

Lemma payload_is_prefix_of_90000_witness :
  exists payload,
    events (check_for_pii_using_aws_comprehend no_labels_inspector
              "logs-bucket" "people.csv" [72; 105]%N)
      {| trace := []; rng := [] |}
      = [ContainsPiiEntities payload]
    /\ payload `prefix_of` [72; 105]%N
    /\ payload <> []
    /\ Z.of_nat (length payload) = 2.
Proof.
  apply (payload_is_prefix_of_90000 no_labels_inspector "logs-bucket"
           "people.csv" [72; 105]%N {| trace := []; rng := [] |}).
  discriminate.
Defined.



(** ** Failures of the services *)

(** X9: an object that cannot be fetched ends the sweep: the exception
    leaves the loop right after the fetch, nothing is classified for that
    object, and the sampled keys after it are not touched. *)
Theorem fetch_failure_ends_sweep self bucket_name object_name rest e w :
  get_object (s3 self) bucket_name object_name = Raise e ->
  inspect_objects self bucket_name (object_name :: rest) w
  = (Raise e,
     {| trace := trace w ++ [Print (Checking bucket_name object_name);
                             GetObject bucket_name object_name];
        rng := rng w |}).
Proof.
  intros Hget. cbn [inspect_objects].
  unfold inspect_object, read_s3_object_content. unfold_M. cbn -[app].
  rewrite Hget. cbn -[app]. by rewrite <- app_assoc.
Qed.

Lemma fetch_failure_ends_sweep_witness :
  inspect_objects denied_inspector "logs-bucket" ["a"; "b"]%string
    {| trace := []; rng := [] |}
  = (Raise (ClientError "AccessDenied"),
     {| trace := [Print (Checking "logs-bucket" "a");
                  GetObject "logs-bucket" "a"];
        rng := [] |}).
Proof.
  apply (fetch_failure_ends_sweep denied_inspector "logs-bucket" "a"
           ["b"%string] (ClientError "AccessDenied")
           {| trace := []; rng := [] |}).
  reflexivity.
Defined.

(** X10: a failure of the classifier ends the sweep: the exception leaves
    the loop right after the classification call, nothing is reported for
    that object, and the sampled keys after it are not touched. *)
Theorem classifier_failure_ends_sweep self bucket_name object_name rest
    content content_str e w :
  get_object (s3 self) bucket_name object_name = Ok content ->
  decode_content content = Ok content_str ->
  content_str <> [] ->
  contains_pii_entities (comprehend self) (slice_to 90000 content_str)
    = Raise e ->
  inspect_objects self bucket_name (object_name :: rest) w
  = (Raise e,
     {| trace := trace w
                 ++ [Print (Checking bucket_name object_name);
                     GetObject bucket_name object_name;
                     ContainsPiiEntities (slice_to 90000 content_str)];
        rng := rng w |}).
Proof.
  intros Hget Hdec Hne Hresp. cbn [inspect_objects]. unfold inspect_object.
  erewrite bind_Raise; [reflexivity|].
  erewrite bind_Ok by reflexivity.
  erewrite bind_Ok
    by (rewrite (read_s3_object_content_run _ _ _ _ _ Hget), Hdec; reflexivity).
  erewrite bind_Raise
    by (rewrite check_for_pii_nonempty, Hresp by done; reflexivity).
  cbn -[app slice_to]. by rewrite <- !app_assoc.
Qed.

Lemma classifier_failure_ends_sweep_witness :
  inspect_objects throttled_inspector "logs-bucket"
    ["people.csv"; "orders.csv"]%string {| trace := []; rng := [] |}
  = (Raise (ClientError "ThrottlingException"),
     {| trace := [Print (Checking "logs-bucket" "people.csv");
                  GetObject "logs-bucket" "people.csv";
                  ContainsPiiEntities [65%N]];
        rng := [] |}).
Proof.
  apply (classifier_failure_ends_sweep throttled_inspector "logs-bucket"
           "people.csv" ["orders.csv"%string] ["A"%byte] [65%N]
           (ClientError "ThrottlingException") {| trace := []; rng := [] |});
    first [reflexivity | discriminate].
Defined.

(** ** More on the filter *)

Lemma py_in_app x l1 l2 : py_in x (l1 ++ l2) = py_in x l1 || py_in x l2.
Proof.
  induction l1 as [|y l1 IH]; [done|]. simpl.
  by destruct (String.eqb y x).
Qed.

(** X11: filters compose.  Filtering against two ignore lists one after the
    other is filtering against their concatenation, in either order, and
    filtering a concatenation of findings is filtering its parts. *)
Theorem labels_not_in_composes ignore1 ignore2 findings1 findings2 :
  labels_not_in (ignore1 ++ ignore2) findings1
    = labels_not_in ignore1 (labels_not_in ignore2 findings1)
  /\ labels_not_in ignore1 (labels_not_in ignore2 findings1)
     = labels_not_in ignore2 (labels_not_in ignore1 findings1)
  /\ labels_not_in ignore1 (findings1 ++ findings2)
     = labels_not_in ignore1 findings1 ++ labels_not_in ignore1 findings2.
Proof.
  split_and!.
  - induction findings1 as [|l findings1 IH]; [done|]. simpl.
    rewrite py_in_app.
    destruct (py_in (Name l) ignore1) eqn:H1,
             (py_in (Name l) ignore2) eqn:H2; simpl; rewrite ?H1; simpl;
      by rewrite IH.
  - rewrite !labels_not_in_filter, !list_filter_filter.
    apply list_filter_iff. naive_solver.
  - induction findings1 as [|l findings1 IH]; [done|]. simpl.
    destruct (py_in (Name l) ignore1); simpl; by rewrite IH.
Qed.

(** ** More on the report *)

Lemma print_labels_run labels : forall w,
  print_labels labels w
  = (Ok tt, {| trace := trace w ++ label_events labels; rng := rng w |}).
Proof.
  induction labels as [|l labels IH]; intros w.
  - simpl. unfold_M. rewrite app_nil_r. by destruct w.
  - cbn [print_labels]. erewrite bind_Ok by reflexivity.
    rewrite IH. cbn -[app]. by rewrite <- app_assoc.
Qed.

Lemma print_numbered_events lines : forall i w,
  print_numbered i lines w
  = (Ok tt, {| trace := trace w ++ numbered_from i lines; rng := rng w |}).
Proof.
  induction lines as [|l lines IH]; intros i w.
  - simpl. unfold_M. rewrite app_nil_r. by destruct w.
  - cbn [print_numbered]. erewrite bind_Ok by reflexivity.
    rewrite IH. unfold numbered_from. cbn -[app].
    rewrite <- app_assoc. cbn [app]. rewrite Nat.add_0_r.
    do 4 f_equal. apply imap_ext. intros j x _. simpl. f_equal. f_equal. lia.
Qed.

Lemma print_preview_run self bucket_name object_name content_str w :
  print_preview self bucket_name object_name content_str w
  = (Ok tt,
     {| trace := trace w
                 ++ preview_events self bucket_name object_name content_str;
        rng := rng w |}).
Proof.
  unfold print_preview, preview_events. destruct (0 <? _).
  - erewrite bind_Ok by reflexivity.
    erewrite bind_Ok by apply print_numbered_events.
    change (slice_to 10 (splitlines content_str))
      with (take 10 (splitlines content_str)).
    destruct (10 <? _); unfold_M; cbn -[app numbered_from];
      rewrite <- ?app_assoc; cbn [app]; by rewrite ?app_nil_r.
  - unfold_M. rewrite app_nil_r. by destruct w.
Qed.

Lemma count_events_app p evs1 evs2 :
  count_events p (evs1 ++ evs2)
  = (count_events p evs1 + count_events p evs2)%nat.
Proof. induction evs1 as [|e evs1 IH]; simpl; [done|]. rewrite IH. lia. Qed.

Lemma fetched_keys_app evs1 evs2 :
  fetched_keys (evs1 ++ evs2) = fetched_keys evs1 ++ fetched_keys evs2.
Proof. apply omap_app. Qed.

(** Printing fetches nothing and calls nothing. *)
Lemma label_events_quiet labels :
  fetched_keys (label_events labels) = []
  /\ count_events is_classification (label_events labels) = 0%nat
  /\ count_events is_listing (label_events labels) = 0%nat.
Proof. induction labels as [|l labels (? & ? & ?)]; simpl; done. Qed.

Lemma numbered_from_quiet lines : forall i,
  fetched_keys (numbered_from i lines) = []
  /\ count_events is_classification (numbered_from i lines) = 0%nat
  /\ count_events is_listing (numbered_from i lines) = 0%nat.
Proof.
  unfold numbered_from. induction lines as [|l lines IH]; intros i; [done|].
  simpl. specialize (IH (S i)).
  erewrite imap_ext; [exact IH|]. intros j x _. simpl. do 2 f_equal. lia.
Qed.

Lemma preview_events_quiet self bucket_name object_name content_str :
  fetched_keys (preview_events self bucket_name object_name content_str) = []
  /\ count_events is_classification
       (preview_events self bucket_name object_name content_str) = 0%nat
  /\ count_events is_listing
       (preview_events self bucket_name object_name content_str) = 0%nat.
Proof.
  unfold preview_events. destruct (0 <? _); [|done].
  destruct (numbered_from_quiet (take 10 (splitlines content_str)) 1)
    as (Hf & Hc & Hl).
  rewrite (app_comm_cons _ _ (Print _)).
  rewrite fetched_keys_app, !count_events_app.
  change (Print ?h :: ?l) with ([Print h] ++ l).
  rewrite fetched_keys_app, !count_events_app, Hf, Hc, Hl.
  by destruct (10 <? _).
Qed.

Lemma decode_content_total content : exists t, decode_content content = Ok t.
Proof.
  rewrite decode_content_is_ignore_decoding_lemma.
  apply utf8_decode_ignore_total.
Qed.

Lemma labels_not_in_all_ignored ignore labels :
  Forall (fun l => Name l ∈ ignore) labels -> labels_not_in ignore labels = [].
Proof.
  induction 1 as [|l labels Hl _ IH]; [done|]. simpl.
  by rewrite (proj2 (py_in_spec _ _) Hl).
Qed.

(** X12: an object whose labels are all of ignored types is reported with
    "No PII entities found", like an object without labels: no label line and
    no preview is printed. *)
Theorem ignored_types_only_reported_clean self bucket_name object_name content
    content_str response labels w :
  get_object (s3 self) bucket_name object_name = Ok content ->
  decode_content content = Ok content_str ->
  content_str <> [] ->
  contains_pii_entities (comprehend self) (slice_to 90000 content_str)
    = Ok response ->
  Labels response = Some labels ->
  Forall (fun l => Name l ∈ IGNORE_TYPES) labels ->
  inspect_object self bucket_name object_name w
  = (Ok tt,
     {| trace := trace w
                 ++ [Print (Checking bucket_name object_name);
                     GetObject bucket_name object_name;
                     ContainsPiiEntities (slice_to 90000 content_str);
                     Print (NoPiiFound bucket_name object_name)];
        rng := rng w |}).
Proof.
  intros Hget Hdec Hne Hresp Hlabels Hall.
  rewrite (inspect_object_classified _ _ _ _ _ _ _ Hget Hdec Hne Hresp).
  unfold process_pii_entities. rewrite Hlabels.
  rewrite (labels_not_in_all_ignored _ _ Hall).
  unfold_M. cbn -[app slice_to]. by rewrite <- !app_assoc.
Qed.

Lemma ignored_types_only_reported_clean_witness :
  inspect_object dates_only_inspector "logs-bucket" "people.csv"
    {| trace := []; rng := [] |}
  = (Ok tt,
     {| trace := [Print (Checking "logs-bucket" "people.csv");
                  GetObject "logs-bucket" "people.csv";
                  ContainsPiiEntities [65%N];
                  Print (NoPiiFound "logs-bucket" "people.csv")];
        rng := [] |}).
Proof.
  apply (ignored_types_only_reported_clean dates_only_inspector "logs-bucket"
           "people.csv" ["A"%byte] [65%N]
           {| Labels := Some [ {| Name := "DATE_TIME"; Score := 0.5%float |};
                               {| Name := "URL"; Score := 0.25%float |} ] |}
           [ {| Name := "DATE_TIME"; Score := 0.5%float |};
             {| Name := "URL"; Score := 0.25%float |} ]
           {| trace := []; rng := [] |});
    try first [reflexivity | discriminate].
  apply (bool_decide_unpack _). vm_compute. exact I.
Defined.

(** What the loop body prints and calls when labels are left to report. *)
Lemma inspect_object_reports self bucket_name object_name content content_str
    response kept w :
  get_object (s3 self) bucket_name object_name = Ok content ->
  decode_content content = Ok content_str ->
  content_str <> [] ->
  contains_pii_entities (comprehend self) (slice_to 90000 content_str)
    = Ok response ->
  process_pii_entities response object_name = Some kept ->
  kept <> [] ->
  inspect_object self bucket_name object_name w
  = (Ok tt,
     {| trace := trace w
                 ++ [Print (Checking bucket_name object_name);
                     GetObject bucket_name object_name;
                     ContainsPiiEntities (slice_to 90000 content_str);
                     Print (PiiFound bucket_name object_name)]
                 ++ label_events kept
                 ++ preview_events self bucket_name object_name content_str
                 ++ [Print Blank];
        rng := rng w |}).
Proof.
  intros Hget Hdec Hne Hresp Hkept Hsome.
  rewrite (inspect_object_classified _ _ _ _ _ _ _ Hget Hdec Hne Hresp).
  rewrite Hkept. destruct kept as [|l kept]; [done|].
  erewrite bind_Ok by reflexivity.
  erewrite bind_Ok by apply print_labels_run.
  erewrite bind_Ok by apply print_preview_run.
  unfold_M. cbn -[app slice_to label_events preview_events].
  by rewrite <- !app_assoc.
Qed.

(** X13: the report of an object with labels left after the filter: after
    "PII entities found" comes one line per kept label, in the order of the
    filter, then the preview, then the blank line, and the loop body ends
    normally.  The preview is empty when [display_lines] is 0 or negative,
    and starts with the "First N lines" header otherwise. *)
Theorem findings_report self bucket_name object_name content content_str
    response kept w :
  get_object (s3 self) bucket_name object_name = Ok content ->
  decode_content content = Ok content_str ->
  content_str <> [] ->
  contains_pii_entities (comprehend self) (slice_to 90000 content_str)
    = Ok response ->
  process_pii_entities response object_name = Some kept ->
  kept <> [] ->
  exists preview,
    inspect_object self bucket_name object_name w
    = (Ok tt,
       {| trace := trace w
                   ++ [Print (Checking bucket_name object_name);
                       GetObject bucket_name object_name;
                       ContainsPiiEntities (slice_to 90000 content_str);
                       Print (PiiFound bucket_name object_name)]
                   ++ ((fun l => Print (PiiType (Name l) (Score l))) <$> kept)
                   ++ preview ++ [Print Blank];
          rng := rng w |})
    /\ (display_lines self <= 0 -> preview = [])
    /\ (0 < display_lines self ->
        hd_error preview
        = Some (Print (FirstLines (display_lines self)
                         bucket_name object_name))).
Proof.
  intros Hget Hdec Hne Hresp Hkept Hsome.
  exists (preview_events self bucket_name object_name content_str).
  split_and!.
  - by apply (inspect_object_reports _ _ _ content _ response).
  - intros Hoff. unfold preview_events.
    by rewrite (proj2 (Z.ltb_ge _ _) Hoff).
  - intros Hon. unfold preview_events.
    by rewrite (proj2 (Z.ltb_lt _ _) Hon).
Qed.

Lemma findings_report_witness :
  exists preview,
    inspect_object display_lines_3 "logs-bucket" "people.csv"
      {| trace := []; rng := [] |}
    = (Ok tt,
       {| trace := [Print (Checking "logs-bucket" "people.csv");
                    GetObject "logs-bucket" "people.csv";
                    ContainsPiiEntities [49; 10; 50; 10; 51; 10; 52; 10; 53]%N;
                    Print (PiiFound "logs-bucket" "people.csv");
                    Print (PiiType "EMAIL" 0.95%float)]
                   ++ preview ++ [Print Blank];
          rng := [] |}).
Proof.
  destruct (findings_report display_lines_3 "logs-bucket" "people.csv"
              five_lines [49; 10; 50; 10; 51; 10; 52; 10; 53]%N
              {| Labels := Some [ {| Name := "EMAIL";
                                     Score := 0.95%float |} ] |}
              [ {| Name := "EMAIL"; Score := 0.95%float |} ]
              {| trace := []; rng := [] |})
    as (preview & Hrun & _); try first [reflexivity | discriminate].
  exists preview. exact Hrun.
Defined.

(** X14: the preview.  With a positive [display_lines] it is the header,
    then the first ten lines of the content numbered from 1 in their order,
    then "..." exactly when the content has more than ten lines; with
    [display_lines] at 0 or below nothing is printed. *)
Theorem preview_shape self bucket_name object_name content_str w :
  (0 < display_lines self ->
   events (print_preview self bucket_name object_name content_str) w
   = trace w
     ++ Print (FirstLines (display_lines self) bucket_name object_name)
        :: imap (fun j l => Print (Numbered (S j) l))
             (take 10 (splitlines content_str))
     ++ (if bool_decide (10 < length (splitlines content_str))%nat
         then [Print Ellipsis] else []))
  /\ (display_lines self <= 0 ->
      events (print_preview self bucket_name object_name content_str) w
      = trace w).
Proof.
  unfold events. rewrite print_preview_run. unfold preview_events. split.
  - intros Hon. rewrite (proj2 (Z.ltb_lt _ _) Hon). cbn [snd trace].
    do 3 f_equal.
    destruct (Z.ltb_spec 10 (Z.of_nat (length (splitlines content_str))));
      [rewrite bool_decide_eq_true_2 by lia
      |rewrite bool_decide_eq_false_2 by lia]; done.
  - intros Hoff. rewrite (proj2 (Z.ltb_ge _ _) Hoff). cbn [snd trace].
    apply app_nil_r.
Qed.

Lemma preview_shape_witness :
  events (print_preview display_lines_3 "logs-bucket" "people.csv"
            [49; 10; 50; 10; 51]%N) {| trace := []; rng := [] |}
  = [Print (FirstLines 3 "logs-bucket" "people.csv");
     Print (Numbered 1 [49%N]); Print (Numbered 2 [50%N]);
     Print (Numbered 3 [51%N])].
Proof.
  refine (proj1 (preview_shape display_lines_3 "logs-bucket" "people.csv"
                   [49; 10; 50; 10; 51]%N {| trace := []; rng := [] |}) _).
  reflexivity.
Defined.

(** ** The calls of an inspection *)

Lemma inspect_object_fetch_failed self bucket_name object_name e w :
  get_object (s3 self) bucket_name object_name = Raise e ->
  inspect_object self bucket_name object_name w
  = (Raise e,
     {| trace := trace w ++ [Print (Checking bucket_name object_name);
                             GetObject bucket_name object_name];
        rng := rng w |}).
Proof.
  intros Hget. unfold inspect_object, read_s3_object_content.
  unfold_M. cbn -[app]. rewrite Hget. cbn -[app]. by rewrite <- app_assoc.
Qed.

Lemma inspect_object_empty_content self bucket_name object_name content w :
  get_object (s3 self) bucket_name object_name = Ok content ->
  decode_content content = Ok [] ->
  inspect_object self bucket_name object_name w
  = (Ok tt,
     {| trace := trace w ++ [Print (Checking bucket_name object_name);
                             GetObject bucket_name object_name;
                             Print (EmptyContent bucket_name object_name)];
        rng := rng w |}).
Proof.
  intros Hget Hdec. unfold inspect_object.
  erewrite bind_Ok by reflexivity.
  erewrite bind_Ok
    by (rewrite (read_s3_object_content_run _ _ _ _ _ Hget), Hdec;
        reflexivity).
  erewrite bind_Ok by apply check_for_pii_empty.
  unfold_M. cbn -[app]. by rewrite <- !app_assoc.
Qed.

Lemma inspect_object_classifier_failed self bucket_name object_name content
    content_str e w :
  get_object (s3 self) bucket_name object_name = Ok content ->
  decode_content content = Ok content_str ->
  content_str <> [] ->
  contains_pii_entities (comprehend self) (slice_to 90000 content_str)
    = Raise e ->
  inspect_object self bucket_name object_name w
  = (Raise e,
     {| trace := trace w
                 ++ [Print (Checking bucket_name object_name);
                     GetObject bucket_name object_name;
                     ContainsPiiEntities (slice_to 90000 content_str)];
        rng := rng w |}).
Proof.
  intros Hget Hdec Hne Hresp. unfold inspect_object.
  erewrite bind_Ok by reflexivity.
  erewrite bind_Ok
    by (rewrite (read_s3_object_content_run _ _ _ _ _ Hget), Hdec; reflexivity).
  erewrite bind_Raise
    by (rewrite check_for_pii_nonempty, Hresp by done; reflexivity).
  cbn -[app slice_to]. by rewrite <- !app_assoc.
Qed.

Lemma inspect_object_nothing_kept self bucket_name object_name content
    content_str response w :
  get_object (s3 self) bucket_name object_name = Ok content ->
  decode_content content = Ok content_str ->
  content_str <> [] ->
  contains_pii_entities (comprehend self) (slice_to 90000 content_str)
    = Ok response ->
  process_pii_entities response object_name = None
  \/ process_pii_entities response object_name = Some [] ->
  inspect_object self bucket_name object_name w
  = (Ok tt,
     {| trace := trace w
                 ++ [Print (Checking bucket_name object_name);
                     GetObject bucket_name object_name;
                     ContainsPiiEntities (slice_to 90000 content_str);
                     Print (NoPiiFound bucket_name object_name)];
        rng := rng w |}).
Proof.
  intros Hget Hdec Hne Hresp Hkept.
  rewrite (inspect_object_classified _ _ _ _ _ _ _ Hget Hdec Hne Hresp).
  destruct Hkept as [-> | ->]; unfold_M; cbn -[app slice_to];
    by rewrite <- !app_assoc.
Qed.

(** Whatever the services answer, the loop body fetches its object once,
    classifies at most once, lists nothing and draws nothing; it ends
    normally when both services answer. *)
Lemma inspect_object_shape self bucket_name object_name w :
  exists r evs,
    inspect_object self bucket_name object_name w
      = (r, {| trace := trace w ++ evs; rng := rng w |})
    /\ fetched_keys evs = [object_name]
    /\ (count_events is_classification evs <= 1)%nat
    /\ count_events is_listing evs = 0%nat
    /\ (succeeds (get_object (s3 self) bucket_name object_name) ->
        (forall txt, succeeds (contains_pii_entities (comprehend self) txt)) ->
        r = Ok tt).
Proof.
  destruct (get_object (s3 self) bucket_name object_name)
    as [content|e] eqn:Hget.
  2: { eexists _, _. split; [by apply inspect_object_fetch_failed|].
       split_and!; [done|simpl; lia|done|]. by intros [? ?]. }
  destruct (decode_content_total content) as [content_str Hdec].
  destruct (decide (content_str = [])) as [->|Hne].
  { eexists _, _. split; [by eapply inspect_object_empty_content|].
    split_and!; [done|simpl; lia|done|done]. }
  destruct (contains_pii_entities (comprehend self)
              (slice_to 90000 content_str)) as [response|e] eqn:Hresp.
  2: { eexists _, _.
       split; [by eapply inspect_object_classifier_failed|].
       split_and!; [done|simpl; lia|done|].
       intros _ Hcls. destruct (Hcls (slice_to 90000 content_str)).
       congruence. }
  destruct (process_pii_entities response object_name)
    as [[|l kept]|] eqn:Hkept.
  - eexists _, _. split; [eapply inspect_object_nothing_kept; eauto|].
    split_and!; [done|simpl; lia|done|done].
  - eexists _, _.
    split; [eapply inspect_object_reports; eauto; discriminate|].
    destruct (label_events_quiet (l :: kept)) as (Hf1 & Hc1 & Hl1).
    destruct (preview_events_quiet self bucket_name object_name content_str)
      as (Hf2 & Hc2 & Hl2).
    rewrite !fetched_keys_app, !count_events_app, Hf1, Hc1, Hl1, Hf2, Hc2, Hl2.
    split_and!; [done|simpl; lia|done|done].
  - eexists _, _. split; [eapply inspect_object_nothing_kept; eauto|].
    split_and!; [done|simpl; lia|done|done].
Qed.

(** The loop fetches the sampled keys in their order, up to the first
    failure. *)
Lemma inspect_objects_shape self bucket_name sample : forall w,
  exists r evs,
    inspect_objects self bucket_name sample w
      = (r, {| trace := trace w ++ evs; rng := rng w |})
    /\ fetched_keys evs `prefix_of` sample
    /\ (count_events is_classification evs <= length (fetched_keys evs))%nat
    /\ count_events is_listing evs = 0%nat
    /\ ((forall key, succeeds (get_object (s3 self) bucket_name key)) ->
        (forall txt, succeeds (contains_pii_entities (comprehend self) txt)) ->
        r = Ok tt /\ fetched_keys evs = sample).
Proof.
  induction sample as [|object_name sample IH]; intros w.
  - exists (Ok tt), []. simpl. unfold_M. rewrite app_nil_r.
    split_and!; [by destruct w|done|done|done|done].
  - destruct (inspect_object_shape self bucket_name object_name w)
      as (r1 & evs1 & Hrun1 & Hf1 & Hc1 & Hl1 & Hok1).
    destruct r1 as [[]|e].
    + destruct (IH {| trace := trace w ++ evs1; rng := rng w |})
        as (r & evs & Hrun & Hf & Hc & Hl & Hok).
      exists r, (evs1 ++ evs). cbn [inspect_objects].
      erewrite bind_Ok by exact Hrun1. rewrite Hrun. cbn -[app].
      rewrite <- app_assoc.
      rewrite fetched_keys_app, !count_events_app, Hf1, Hl1, Hl.
      split_and!; [done|by apply prefix_cons|simpl; lia|done|].
      intros Hget Hcls. destruct (Hok Hget Hcls) as [-> ->]. done.
    + exists (Raise e), evs1. cbn [inspect_objects].
      erewrite bind_Raise by exact Hrun1. rewrite Hf1.
      split_and!; [done|by apply prefix_cons, prefix_nil|simpl; lia|done|].
      intros Hget Hcls. by specialize (Hok1 (Hget _) Hcls).
Qed.



(** X16: when the listing has ['Contents'] and both services answer every
    call, the inspection ends normally having fetched [min(10, n)] of the [n]
    listed objects, no listing entry more often than it occurs, the sampled
    keys in their order; over distinct keys no object is fetched twice. *)
Theorem answered_sweep_fetches_sample self bucket_name contents w :
  list_objects_v2 (s3 self) bucket_name = Ok {| Contents := Some contents |} ->
  (forall key, succeeds (get_object (s3 self) bucket_name key)) ->
  (forall txt, succeeds (contains_pii_entities (comprehend self) txt)) ->
  exists evs draws,
    inspect_bucket self bucket_name w
      = (Ok tt, {| trace := trace w ++ evs; rng := draws |})
    /\ length (fetched_keys evs) = Nat.min 10 (length contents)
    /\ (exists left, fetched_keys evs ++ left ≡ₚ Key <$> contents)
    /\ (NoDup (Key <$> contents) -> NoDup (fetched_keys evs)).
Proof.
  intros Hlist Hget Hcls.
  destruct (sample_s3_bucket_contents_listed self bucket_name contents
              {| trace := trace w ++ [Print (InspectingBucket bucket_name)];
                 rng := rng w |} Hlist)
    as (sample & left & Hrun1 & Hlen & Hperm).
  cbn [trace rng] in Hrun1.
  destruct (inspect_objects_shape self bucket_name sample
              {| trace := (trace w ++ [Print (InspectingBucket bucket_name)])
                          ++ [ListObjectsV2 bucket_name];
                 rng := drop (Nat.min 10 (length contents)) (rng w) |})
    as (r & evs & Hrun & _ & _ & _ & Hok).
  destruct (Hok Hget Hcls) as [-> Hf].
  exists ([Print (InspectingBucket bucket_name);
           ListObjectsV2 bucket_name] ++ evs),
         (drop (Nat.min 10 (length contents)) (rng w)).
  rewrite fetched_keys_app, Hf.
  change (fetched_keys [Print (InspectingBucket bucket_name);
                        ListObjectsV2 bucket_name] ++ sample) with sample.
  split_and!; [|done|by exists left|].
  - unfold inspect_bucket.
    erewrite bind_Ok by reflexivity. erewrite bind_Ok by exact Hrun1.
    rewrite Hrun. cbn -[app]. by rewrite <- !app_assoc.
  - intros Hnodup. rewrite <- Hperm in Hnodup.
    by apply NoDup_app in Hnodup as [? _].
Qed.

Lemma answered_sweep_fetches_sample_witness :
  exists evs draws,
    inspect_bucket sample_size_3 "logs-bucket"
      {| trace := []; rng := [7; 3; 9; 1; 0]%nat |}
      = (Ok tt, {| trace := evs; rng := draws |})
    /\ length (fetched_keys evs) = 5%nat
    /\ (exists left, fetched_keys evs ++ left
                     ≡ₚ ["a"; "b"; "c"; "d"; "e"]%string)
    /\ (NoDup ["a"; "b"; "c"; "d"; "e"]%string -> NoDup (fetched_keys evs)).
Proof.
  apply (answered_sweep_fetches_sample sample_size_3 "logs-bucket"
           [ {| Key := "a" |}; {| Key := "b" |}; {| Key := "c" |};
             {| Key := "d" |}; {| Key := "e" |} ]
           {| trace := []; rng := [7; 3; 9; 1; 0]%nat |}).
  - reflexivity.
  - intros key. by exists [].
  - intros txt. by exists {| Labels := Some [] |}.
Defined.

(** ** [get_s3_buckets] *)

#[global] Instance str_le_total : Total str_le.
Proof. intros s1 s2. apply String.leb_total. Qed.

(** X17: [get_s3_buckets] returns the names of the buckets of the account
    in ascending order, each as often as it is listed; a failure of
    [list_buckets] is passed on. *)
Theorem get_s3_buckets_sorted_names list_buckets :
  match list_buckets with
  | Ok response =>
      exists names,
        get_s3_buckets list_buckets = Ok names
        /\ Sorted str_le names
        /\ names ≡ₚ Bucket.Name <$> Buckets response
  | Raise e => get_s3_buckets list_buckets = Raise e
  end.
Proof.
  destruct list_buckets as [response|e]; [|done].
  eexists. split; [reflexivity|]. split.
  - apply (Sorted_merge_sort str_le).
  - apply merge_sort_Permutation.
Qed.

(** ** The lines of a preview *)

Lemma splitlines_no_boundary_bounded n : forall s,
  (length s <= n)%nat ->
  Forall (Forall (fun ch => is_linebreak ch = false)) (splitlines s).
Proof.
  induction n as [|n IH]; intros [|ch s1] Hlen;
    [constructor|simpl in Hlen; lia|constructor|].
  simpl in Hlen. cbn [splitlines].
  destruct (is_linebreak ch) eqn:Hch.
  - destruct s1 as [|ch2 s2]; [by repeat constructor|].
    simpl in Hlen. destruct (_ && _).
    + constructor; [constructor|]. apply IH. lia.
    + constructor; [constructor|]. apply IH. simpl. lia.
  - specialize (IH s1 ltac:(lia)).
    destruct (splitlines s1) as [|l ls].
    + by repeat constructor.
    + apply Forall_cons in IH as [Hl Hls].
      constructor; [by constructor|done].
Qed.

Lemma numbered_lines_numbered_from lines : forall i,
  numbered_lines (numbered_from i lines) = lines.
Proof.
  unfold numbered_from. induction lines as [|l lines IH]; intros i; [done|].
  simpl. f_equal. rewrite <- (IH (S i)) at 2. f_equal.
  apply imap_ext. intros j x _. simpl. do 2 f_equal. lia.
Qed.

(** X18: a preview has at most ten numbered lines, and none of them
    contains a line boundary character. *)
Theorem preview_lines_are_lines self bucket_name object_name content_str w :
  (length (numbered_lines
             (events (print_preview self bucket_name object_name content_str)
                {| trace := []; rng := rng w |})) <= 10)%nat
  /\ Forall (Forall (fun ch => is_linebreak ch = false))
       (numbered_lines
          (events (print_preview self bucket_name object_name content_str)
             {| trace := []; rng := rng w |})).
Proof.
  unfold events. rewrite print_preview_run. cbn [snd trace app].
  unfold preview_events. destruct (0 <? _); [|split; [simpl; lia|constructor]].
  cbn [numbered_lines]. rewrite numbered_lines_app, numbered_lines_numbered_from.
  assert (numbered_lines
            (if 10 <? Z.of_nat (length (splitlines content_str))
             then [Print Ellipsis] else []) = []) as ->
    by by destruct (10 <? _).
  rewrite app_nil_r. split.
  - rewrite length_take. lia.
  - apply Forall_take.
    by apply (splitlines_no_boundary_bounded (length content_str)).
Qed.
